(** * Encrypted data bag items (chef/encrypted_data_bag_item.py)

    A shallow embedding of the versioned encryption envelope of PyChef and
    the properties of its dispatch, memoisation, tag validation and error
    behaviour.

    Conventions.
    - Python 3 semantics (the branch [sys.version_info[0] > 2]).
    - [bytes] is [list byte]; a Python [str] is modelled by the [string]
      holding its UTF-8 encoding, so [s.encode('utf8')] is a change of
      representation and [b.decode('utf-8')] is partial.
    - [hashlib.sha256], [hmac.new], [base64] and [binascii.hexlify] are
      modelled concretely; the cipher ([chef.aes]) and the JSON codec
      ([chef.utils.json]) are interfaces. *)

From Stdlib Require Import NArith ZArith Lia List.
From Stdlib Require Import Strings.String Strings.Ascii Strings.Byte.
From Stdlib Require Import DecimalString DecimalZ.
From stdpp Require Import base option list strings gmap.

Local Open Scope N_scope.
Set Warnings "-register-all".

(** ** Bytes *)

Abbreviation bytes := (list byte).

Definition byte_of_N (n : N) : byte :=
  match Byte.of_N (n mod 256) with
  | Some b => b
  | None => x00
  end.

Definition encode_utf8 (s : string) : bytes := list_byte_of_string s.

Definition str_of_bytes (b : bytes) : string := string_of_list_byte b.

(** ** hashlib.sha256 (FIPS 180-4) on 32-bit words held in [N] *)

Module SHA256.

Definition mask32 : N := 0xFFFFFFFF.

Definition add32 (a b : N) : N := N.land (a + b) mask32.

Definition rotr (n x : N) : N :=
  N.land (N.lor (N.shiftr x n) (N.shiftl x (32 - n))) mask32.

Definition shr (n x : N) : N := N.shiftr x n.

Definition not32 (x : N) : N := N.lxor x mask32.

Definition Ch (x y z : N) : N := N.lxor (N.land x y) (N.land (not32 x) z).

Definition Maj (x y z : N) : N :=
  N.lxor (N.lxor (N.land x y) (N.land x z)) (N.land y z).

Definition bsig0 (x : N) : N := N.lxor (N.lxor (rotr 2 x) (rotr 13 x)) (rotr 22 x).

Definition bsig1 (x : N) : N := N.lxor (N.lxor (rotr 6 x) (rotr 11 x)) (rotr 25 x).

Definition ssig0 (x : N) : N := N.lxor (N.lxor (rotr 7 x) (rotr 18 x)) (shr 3 x).

Definition ssig1 (x : N) : N := N.lxor (N.lxor (rotr 17 x) (rotr 19 x)) (shr 10 x).

(** The greatest [r] below [2 ^ bits] with [r ^ k <= n], found bit by bit
    from the top. *)
Fixpoint root_bits (k n : N) (bits : nat) (r : N) : N :=
  match bits with
  | O => r
  | S bits' =>
      let r' := N.lor r (N.shiftl 1 (N.of_nat bits')) in
      root_bits k n bits' (if r' ^ k <=? n then r' else r)
  end.

(** The first 32 bits of the fractional part of the [k]-th root of [p]. *)
Definition root_fraction (k p : N) : N :=
  N.land (root_bits k (N.shiftl p (32 * k)) 40 0) mask32.

Definition primes : list N :=
  [ 2; 3; 5; 7; 11; 13; 17; 19; 23; 29; 31; 37; 41; 43; 47; 53;
    59; 61; 67; 71; 73; 79; 83; 89; 97; 101; 103; 107; 109; 113; 127; 131;
    137; 139; 149; 151; 157; 163; 167; 173; 179; 181; 191; 193; 197; 199; 211; 223;
    227; 229; 233; 239; 241; 251; 257; 263; 269; 271; 277; 281; 283; 293; 307; 311 ].

(** The round constants: the cube roots of the first 64 primes. *)
Definition K : list N := Eval vm_compute in map (root_fraction 3) primes.

Record state := State { ha : N; hb : N; hc : N; hd : N; he : N; hf : N; hg : N; hh : N }.

(** The initial hash value: the square roots of the first 8 primes. *)
Definition H0 : state :=
  Eval vm_compute in
    match map (root_fraction 2) (firstn 8 primes) with
    | [a; b; c; d; e; f; g; h] => State a b c d e f g h
    | _ => State 0 0 0 0 0 0 0 0
    end.

(** Message padding: a 1 bit, zeros, then the bit length on 64 bits. *)
Definition be_bytes (width : nat) (n : N) : bytes :=
  map (fun i => byte_of_N (N.shiftr n (8 * N.of_nat i))) (rev (seq 0 width)).

Definition pad (m : bytes) : bytes :=
  let len := length m in
  let zeros := ((64 - (len + 9) mod 64) mod 64)%nat in
  m ++ x80 :: repeat x00 zeros ++ be_bytes 8 (8 * N.of_nat len).

Definition be_word (b : bytes) : N :=
  fold_left (fun acc x => N.lor (N.shiftl acc 8) (Byte.to_N x)) b 0.

Fixpoint words (n : nat) (b : bytes) : list N :=
  match n with
  | O => []
  | S n' => be_word (firstn 4 b) :: words n' (skipn 4 b)
  end.

(** The message schedule, newest word first. *)
Fixpoint extend (n : nat) (w : list N) : list N :=
  match n with
  | O => w
  | S n' =>
      let x := add32 (add32 (ssig1 (nth 1 w 0)) (nth 6 w 0))
                     (add32 (ssig0 (nth 14 w 0)) (nth 15 w 0)) in
      extend n' (x :: w)
  end.

Definition schedule (block : bytes) : list N :=
  rev (extend 48 (rev (words 16 block))).

Definition round (s : state) (kw : N * N) : state :=
  let '(k, w) := kw in
  let t1 := add32 (add32 (add32 (hh s) (bsig1 (he s))) (add32 (Ch (he s) (hf s) (hg s)) k)) w in
  let t2 := add32 (bsig0 (ha s)) (Maj (ha s) (hb s) (hc s)) in
  State (add32 t1 t2) (ha s) (hb s) (hc s) (add32 (hd s) t1) (he s) (hf s) (hg s).

Definition compress (s : state) (block : bytes) : state :=
  let r := fold_left round (combine K (schedule block)) s in
  State (add32 (ha s) (ha r)) (add32 (hb s) (hb r)) (add32 (hc s) (hc r)) (add32 (hd s) (hd r))
        (add32 (he s) (he r)) (add32 (hf s) (hf r)) (add32 (hg s) (hg r)) (add32 (hh s) (hh r)).

Fixpoint blocks (n : nat) (b : bytes) (s : state) : state :=
  match n with
  | O => s
  | S n' => blocks n' (skipn 64 b) (compress s (firstn 64 b))
  end.

Definition word_bytes (w : N) : bytes :=
  [ byte_of_N (N.shiftr w 24); byte_of_N (N.shiftr w 16); byte_of_N (N.shiftr w 8); byte_of_N w ].

Definition output (s : state) : bytes :=
  word_bytes (ha s) ++ word_bytes (hb s) ++ word_bytes (hc s) ++ word_bytes (hd s) ++
  word_bytes (he s) ++ word_bytes (hf s) ++ word_bytes (hg s) ++ word_bytes (hh s).

(** [hashlib.sha256(m).digest()] *)
Definition digest (m : bytes) : bytes :=
  let p := pad m in
  output (blocks (length p / 64) p H0).

End SHA256.

(** [binascii.hexlify] *)
Definition hex_digit (n : N) : byte :=
  nth (N.to_nat n) (list_byte_of_string "0123456789abcdef") x00.

Definition hexlify (b : bytes) : bytes :=
  flat_map (fun x => [hex_digit (Byte.to_N x / 16); hex_digit (Byte.to_N x mod 16)]) b.

Example sha256_abc :
  hexlify (SHA256.digest (encode_utf8 "abc"))
  = encode_utf8 "ba7816bf8f01cfea414140de5dae2223b00361a396177a9cb410ff61f20015ad".
Proof. vm_compute. reflexivity. Qed.

Example sha256_empty :
  hexlify (SHA256.digest [])
  = encode_utf8 "e3b0c44298fc1c149afbf4c8996fb92427ae41e4649b934ca495991b7852b855".
Proof. vm_compute. reflexivity. Qed.

Example sha256_two_blocks :
  hexlify (SHA256.digest (encode_utf8 "abcdbcdecdefdefgefghfghighijhijkijkljklmklmnlmnomnopnopq"))
  = encode_utf8 "248d6a61d20638b8e5c026930c3e6039a33ce45964ff2167f6ecedd419db06c1".
Proof. vm_compute. reflexivity. Qed.

(** ** hmac.new(key, msg, hashlib.sha256).digest() (RFC 2104) *)

Definition block_size : nat := 64.

Definition xor_const (c : N) (b : byte) : byte := byte_of_N (N.lxor (Byte.to_N b) c).

(** A key longer than the block size is hashed first; the result is
    padded with zero bytes to the block size. *)
Definition hmac_block_key (key : bytes) : bytes :=
  let k := if (block_size <? length key)%nat then SHA256.digest key else key in
  k ++ repeat x00 (block_size - length k).

Definition hmac_sha256 (key msg : bytes) : bytes :=
  let k := hmac_block_key key in
  SHA256.digest (map (xor_const 0x5c) k ++ SHA256.digest (map (xor_const 0x36) k ++ msg)).

Example hmac_rfc4231_case2 :
  hexlify (hmac_sha256 (encode_utf8 "Jefe") (encode_utf8 "what do ya want for nothing?"))
  = encode_utf8 "5bdcc146bf60754e6a042426089575c75a003f089d2739839dec58b964ec3843".
Proof. vm_compute. reflexivity. Qed.

Example hmac_rfc4231_case6 :
  hexlify (hmac_sha256 (repeat xaa 131)
             (encode_utf8 "Test Using Larger Than Block-Size Key - Hash Key First"))
  = encode_utf8 "60e431591ee0b67f0d8a26aacbf5b77f8e0bc6213728c5140546040f0ee37f54".
Proof. vm_compute. reflexivity. Qed.

(** ** base64.standard_b64encode / base64.standard_b64decode *)

Module Base64.

Definition alphabet : bytes :=
  list_byte_of_string "ABCDEFGHIJKLMNOPQRSTUVWXYZabcdefghijklmnopqrstuvwxyz0123456789+/".

Definition PAD : byte := "="%byte.

Definition char (n : N) : byte := nth (N.to_nat n) alphabet x00.

Definition s1 (x : byte) : N := N.shiftr (Byte.to_N x) 2.
Definition s2 (x y : byte) : N :=
  N.lor (N.shiftl (N.land (Byte.to_N x) 3) 4) (N.shiftr (Byte.to_N y) 4).
Definition s3 (y z : byte) : N :=
  N.lor (N.shiftl (N.land (Byte.to_N y) 15) 2) (N.shiftr (Byte.to_N z) 6).
Definition s4 (z : byte) : N := N.land (Byte.to_N z) 63.

Fixpoint encode (b : bytes) : bytes :=
  match b with
  | [] => []
  | [x] => [char (s1 x); char (s2 x x00); PAD; PAD]
  | [x; y] => [char (s1 x); char (s2 x y); char (s3 y x00); PAD]
  | x :: y :: z :: rest => char (s1 x) :: char (s2 x y) :: char (s3 y z) :: char (s4 z) :: encode rest
  end.

(** [table_a2b_base64]: the 6-bit value of an alphabet character. *)
Definition value_of (c : byte) : option N :=
  let n := Byte.to_N c in
  if (65 <=? n) && (n <=? 90) then Some (n - 65)
  else if (97 <=? n) && (n <=? 122) then Some (n - 71)
  else if (48 <=? n) && (n <=? 57) then Some (n + 4)
  else if n =? 43 then Some 62
  else if n =? 47 then Some 63
  else None.

(** [binascii.a2b_base64] without strict mode: characters outside the
    alphabet are skipped, a complete pad sequence ends the input, and an
    unfinished quad at the end of the input is an error ([None]). *)
Fixpoint a2b (s : bytes) (quad_pos : nat) (leftchar : N) (pads : nat) (out : bytes)
  : option bytes :=
  match s with
  | [] => if decide (quad_pos = 0%nat) then Some out else None
  | c :: s' =>
      if Byte.eqb c PAD then
        if decide (2 <= quad_pos)%nat then
          if decide (4 <= quad_pos + S pads)%nat then Some out
          else a2b s' quad_pos leftchar (S pads) out
        else a2b s' quad_pos leftchar pads out
      else
        match value_of c with
        | None => a2b s' quad_pos leftchar pads out
        | Some v =>
            match quad_pos with
            | 0%nat => a2b s' 1%nat v 0%nat out
            | 1%nat =>
                a2b s' 2%nat (N.land v 15) 0%nat
                    (out ++ [byte_of_N (N.lor (N.shiftl leftchar 2) (N.shiftr v 4))])
            | 2%nat =>
                a2b s' 3%nat (N.land v 3) 0%nat
                    (out ++ [byte_of_N (N.lor (N.shiftl leftchar 4) (N.shiftr v 2))])
            | _ =>
                a2b s' 0%nat 0 0%nat
                    (out ++ [byte_of_N (N.lor (N.shiftl leftchar 6) v)])
            end
        end
  end.

Definition decode (s : bytes) : option bytes := a2b s 0%nat 0 0%nat [].

End Base64.

Example b64_encode_foobar :
  Base64.encode (encode_utf8 "foobar") = encode_utf8 "Zm9vYmFy"
  /\ Base64.encode (encode_utf8 "fooba") = encode_utf8 "Zm9vYmE="
  /\ Base64.encode (encode_utf8 "foob") = encode_utf8 "Zm9vYg==".
Proof. vm_compute. auto. Qed.

Example b64_decode_examples :
  Base64.decode (encode_utf8 "Zm9vYmE=") = Some (encode_utf8 "fooba")
  /\ Base64.decode (encode_utf8 "QR==") = Some (encode_utf8 "A")
  /\ Base64.decode (encode_utf8 "Zm9vY") = None
  /\ Base64.decode (encode_utf8 "Zm9v@YmE=") = Some (encode_utf8 "fooba").
Proof. vm_compute. auto. Qed.

(** ** UTF-8 *)

Definition in_range (lo hi : N) (b : byte) : bool :=
  (lo <=? Byte.to_N b) && (Byte.to_N b <=? hi).

(** Well-formed UTF-8 (no overlong forms, no surrogates, at most U+10FFFF),
    as accepted by [bytes.decode('utf-8')]. *)
Fixpoint utf8_valid (fuel : nat) (b : bytes) : bool :=
  match fuel with
  | O => match b with [] => true | _ => false end
  | S fuel' =>
      match b with
      | [] => true
      | c :: r =>
          let n := Byte.to_N c in
          if n <=? 0x7f then utf8_valid fuel' r
          else if in_range 0xc2 0xdf c then
            match r with
            | c1 :: r' => in_range 0x80 0xbf c1 && utf8_valid fuel' r'
            | _ => false
            end
          else if in_range 0xe0 0xef c then
            match r with
            | c1 :: c2 :: r' =>
                in_range (if n =? 0xe0 then 0xa0 else 0x80) (if n =? 0xed then 0x9f else 0xbf) c1
                && in_range 0x80 0xbf c2 && utf8_valid fuel' r'
            | _ => false
            end
          else if in_range 0xf0 0xf4 c then
            match r with
            | c1 :: c2 :: c3 :: r' =>
                in_range (if n =? 0xf0 then 0x90 else 0x80) (if n =? 0xf4 then 0x8f else 0xbf) c1
                && in_range 0x80 0xbf c2 && in_range 0x80 0xbf c3 && utf8_valid fuel' r'
            | _ => false
            end
          else false
      end
  end.

Definition decode_utf8 (b : bytes) : option string :=
  if utf8_valid (length b) b then Some (str_of_bytes b) else None.

Definition is_ascii (s : string) : bool :=
  forallb (fun c => Byte.to_N c <=? 0x7f) (encode_utf8 s).

(** ** Python values *)

(** The values that travel through the envelope: the item to protect, the
    fields of an envelope dict and the configured version.  Floats are not
    part of the model. *)
Inductive value :=
| PNone
| PBool (b : bool)
| PInt (z : Z)
| PStr (s : string)
| PList (items : list value)
| PDict (kvs : list (string * value)).

(** [repr(v)]; escape sequences inside strings are not rendered. *)
Fixpoint py_repr (v : value) : string :=
  match v with
  | PNone => "None"
  | PBool true => "True"
  | PBool false => "False"
  | PInt z => NilEmpty.string_of_int (Z.to_int z)
  | PStr s => "'" +:+ s +:+ "'"
  | PList items =>
      "[" +:+ (fix go (l : list value) : string :=
                 match l with
                 | [] => ""
                 | x :: r => match r with
                             | [] => py_repr x
                             | _ => py_repr x +:+ ", " +:+ go r
                             end
                 end) items +:+ "]"
  | PDict kvs =>
      "{" +:+ (fix go (l : list (string * value)) : string :=
                 match l with
                 | [] => ""
                 | (k, x) :: r => match r with
                                  | [] => "'" +:+ k +:+ "': " +:+ py_repr x
                                  | _ => "'" +:+ k +:+ "': " +:+ py_repr x +:+ ", " +:+ go r
                                  end
                 end) kvs +:+ "}"
  end.

(** [str(v)] *)
Definition py_str (v : value) : string :=
  match v with
  | PStr s => s
  | _ => py_repr v
  end.

(** Lists and dicts cannot be dict keys. *)
Definition hashable (v : value) : bool :=
  match v with
  | PList _ | PDict _ => false
  | _ => true
  end.

(** [v == n] for an integer literal [n]; [True == 1] and [False == 0]. *)
Definition py_eq_int (v : value) (n : Z) : bool :=
  match v with
  | PInt z => Z.eqb z n
  | PBool b => Z.eqb (Z.b2z b) n
  | _ => false
  end.

(** ** Exceptions, the world and the monad of effects *)

Inductive exn :=
| ChefUnsupportedEncryptionVersionError (version : value)
| ChefDecryptionError (msg : string)
| KeyError (k : value)
| TypeError
| ValueError
| BinasciiError
| AttributeError
| CipherError.

Inductive result (A : Type) :=
| Raise (e : exn)
| Return (a : A).
Arguments Raise {A} e.
Arguments Return {A} a.

(** The calls into the cryptographic libraries, in the order they happen. *)
Inductive event :=
| EvDigest (m : bytes)
| EvUrandom (n : nat)
| EvCipherNew (key iv : bytes)
| EvCipherEncrypt (key iv plaintext : bytes)
| EvCipherDecrypt (key iv ciphertext : bytes)
| EvHmac (key msg : bytes).

(** The entropy source is a stream of bytes read from [cursor] on. *)
Record world := World { entropy : nat -> byte; cursor : nat; trace : list event }.

Definition M (A : Type) : Type := world -> result A * world.

#[global] Instance M_ret : MRet M := fun A a w => (Return a, w).

#[global] Instance M_bind : MBind M := fun A B f m w =>
  match m w with
  | (Return a, w') => f a w'
  | (Raise e, w') => (Raise e, w')
  end.

Definition raise {A} (e : exn) : M A := fun w => (Raise e, w).

Definition try_except {A} (m : M A) (handler : exn -> M A) : M A := fun w =>
  match m w with
  | (Return a, w') => (Return a, w')
  | (Raise e, w') => handler e w'
  end.

Definition log (e : event) : M unit := fun w =>
  (Return tt, World (entropy w) (cursor w) (trace w ++ [e])).

(** [hashlib.sha256(m).digest()] *)
Definition sha256_digest (m : bytes) : M bytes :=
  _ ← log (EvDigest m); mret (SHA256.digest m).

(** [os.urandom(n)] *)
Definition urandom (n : nat) : M bytes := fun w =>
  (Return (map (entropy w) (seq (cursor w) n)),
   World (entropy w) (cursor w + n) (trace w ++ [EvUrandom n])).

(** [hmac.new(key, msg, hashlib.sha256).digest()] *)
Definition hmac_new (key msg : bytes) : M bytes :=
  _ ← log (EvHmac key msg); mret (hmac_sha256 key msg).

(** [d[k]] on a dict with text keys *)
Definition getitem (d : gmap string value) (k : string) : M value :=
  match d !! k with
  | Some v => mret v
  | None => raise (KeyError (PStr k))
  end.

(** [v[k]] on an arbitrary value *)
Fixpoint assoc (k : string) (kvs : list (string * value)) : option value :=
  match kvs with
  | [] => None
  | (k', v) :: r => if String.eqb k k' then Some v else assoc k r
  end.

Definition subscript (v : value) (k : string) : M value :=
  match v with
  | PDict kvs =>
      match assoc k kvs with
      | Some x => mret x
      | None => raise (KeyError (PStr k))
      end
  | _ => raise TypeError
  end.

(** [base64.standard_b64encode(b).decode('utf8')] *)
Definition b64_text (b : bytes) : string := str_of_bytes (Base64.encode b).

(** [base64.standard_b64decode(v)]: text must be ASCII; anything that is
    not text is a [TypeError]. *)
Definition standard_b64decode (v : value) : M bytes :=
  match v with
  | PStr s =>
      if is_ascii s then
        match Base64.decode (encode_utf8 s) with
        | Some b => mret b
        | None => raise BinasciiError
        end
      else raise ValueError
  | _ => raise TypeError
  end.

(** ** The collaborators: cipher adapter and JSON codec *)

(** [chef.aes]: [AES256Cipher] and [EVP_MAX_IV_LENGTH].  The adapter takes
    the text to encrypt and encodes it itself; a failure of its [decrypt]
    is [None]. *)
Class Cipher := {
  EVP_MAX_IV_LENGTH : nat;
  cipher_encrypt : bytes -> bytes -> bytes -> bytes;
  cipher_decrypt : bytes -> bytes -> bytes -> option bytes
}.

(** [chef.utils.json]: [dumps] and [loads]; a [ValueError] of [loads] is
    [None]. *)
Class Json := {
  json_dumps : value -> string;
  json_loads : string -> option value
}.

Module AES256Cipher.

Record t := Make { key : bytes; iv : bytes }.

Definition init (key iv : bytes) : M t :=
  _ ← log (EvCipherNew key iv); mret (Make key iv).

Definition encrypt `{Cipher} (self : t) (data : string) : M bytes :=
  _ ← log (EvCipherEncrypt (key self) (iv self) (encode_utf8 data));
  mret (cipher_encrypt (key self) (iv self) (encode_utf8 data)).

Definition decrypt `{Cipher} (self : t) (data : bytes) : M bytes :=
  _ ← log (EvCipherDecrypt (key self) (iv self) data);
  match cipher_decrypt (key self) (iv self) data with
  | Some b => mret b
  | None => raise CipherError
  end.

End AES256Cipher.

(** ** The encryptors *)

Definition SUPPORTED_ENCRYPTION_VERSIONS : list Z := [1; 2]%Z.

Definition json_wrapper (data : value) : value := PDict [("json_wrapper"%string, data)].

Module EncryptorVersion1.

Definition VERSION : Z := 1.

Record t := Make {
  plain_key : bytes;
  key : bytes;
  data : value;
  iv : bytes;
  encryptor : AES256Cipher.t;
  encrypted_data : option bytes
}.

Definition set_encrypted_data (self : t) (ct : bytes) : t :=
  Make (plain_key self) (key self) (data self) (iv self) (encryptor self) (Some ct).

Definition init `{Cipher} (key : string) (data : value) : M t :=
  k ← sha256_digest (encode_utf8 key);
  r ← urandom (EVP_MAX_IV_LENGTH / 2);
  c ← AES256Cipher.init k (hexlify r);
  mret (Make (encode_utf8 key) k data (hexlify r) c None).

Definition encrypt `{Cipher, Json} (self : t) : M (bytes * t) :=
  match encrypted_data self with
  | None =>
      ct ← AES256Cipher.encrypt (encryptor self) (json_dumps (json_wrapper (data self)));
      mret (ct, set_encrypted_data self ct)
  | Some ct => mret (ct, self)
  end.

(** The dict built by [to_dict] once [self.encrypt()] has returned. *)
Definition envelope (version : Z) (ct iv : bytes) : gmap string value :=
  <["encrypted_data"%string := PStr (b64_text ct)]>
    (<["iv"%string := PStr (b64_text iv)]>
       (<["version"%string := PInt version]>
          (<["cipher"%string := PStr "aes-256-cbc"]> ∅))).

Definition to_dict `{Cipher, Json} (self : t) : M (gmap string value * t) :=
  '(ct, self) ← encrypt self;
  mret (envelope VERSION ct (iv self), self).

End EncryptorVersion1.

Module EncryptorVersion2.

Definition VERSION : Z := 2.

Record t := Make { base : EncryptorVersion1.t; hmac : option bytes }.

Definition init `{Cipher} (key : string) (data : value) : M t :=
  b ← EncryptorVersion1.init key data;
  mret (Make b None).

Definition _generate_hmac (self : t) : M bytes :=
  match EncryptorVersion1.encrypted_data (base self) with
  | Some ct => hmac_new (EncryptorVersion1.plain_key (base self)) (Base64.encode ct)
  | None => raise TypeError
  end.

Definition encrypt `{Cipher, Json} (self : t) : M (bytes * t) :=
  '(ct, b) ← EncryptorVersion1.encrypt (base self);
  let self := Make (EncryptorVersion1.set_encrypted_data b ct) (hmac self) in
  h ← match hmac self with
      | Some h => mret h
      | None => _generate_hmac self
      end;
  mret (ct, Make (base self) (Some h)).

(** [super().to_dict()] runs the inherited body, whose [self.encrypt()] and
    [self.VERSION] resolve to this class. *)
Definition to_dict `{Cipher, Json} (self : t) : M (gmap string value * t) :=
  '(ct, self) ← encrypt self;
  let result := EncryptorVersion1.envelope VERSION ct (EncryptorVersion1.iv (base self)) in
  match hmac self with
  | Some h => mret (<["hmac"%string := PStr (b64_text h)]> result, self)
  | None => raise TypeError
  end.

End EncryptorVersion2.

Inductive encryptor :=
| EncV1 (e : EncryptorVersion1.t)
| EncV2 (e : EncryptorVersion2.t).

Definition encryptor_encrypt `{Cipher, Json} (e : encryptor) : M (bytes * encryptor) :=
  match e with
  | EncV1 e => '(ct, e') ← EncryptorVersion1.encrypt e; mret (ct, EncV1 e')
  | EncV2 e => '(ct, e') ← EncryptorVersion2.encrypt e; mret (ct, EncV2 e')
  end.

Definition encryptor_to_dict `{Cipher, Json} (e : encryptor) : M (gmap string value * encryptor) :=
  match e with
  | EncV1 e => '(d, e') ← EncryptorVersion1.to_dict e; mret (d, EncV1 e')
  | EncV2 e => '(d, e') ← EncryptorVersion2.to_dict e; mret (d, EncV2 e')
  end.

(** Both entries of the dict display are evaluated before the lookup; the
    [try] covers the display and the lookup. *)
Definition create_encryptor `{Cipher} (key : string) (data version : value) : M encryptor :=
  try_except
    (e1 ← EncryptorVersion1.init key data;
     e2 ← EncryptorVersion2.init key data;
     if negb (hashable version) then raise TypeError
     else if py_eq_int version 1 then mret (EncV1 e1)
     else if py_eq_int version 2 then mret (EncV2 e2)
     else raise (KeyError version))
    (fun e => match e with
              | KeyError _ => raise (ChefUnsupportedEncryptionVersionError version)
              | _ => raise e
              end).

(** ** The decryptors *)

Definition MSG_KEY_INCORRECT : string :=
  "Error decrypting data bag value. Most likely the provided key is incorrect".

Definition MSG_HMAC_FAILED : string :=
  "Error decrypting data bag value. HMAC validation failed.".

Definition get_decryption_version (data : gmap string value) : M value :=
  match data !! "version"%string with
  | Some v =>
      if bool_decide (py_str v ∈ map (fun n => py_str (PInt n)) SUPPORTED_ENCRYPTION_VERSIONS)
      then mret v
      else raise (ChefUnsupportedEncryptionVersionError v)
  | None => mret (PInt 1)
  end.

Module DecryptorVersion1.

Record t := Make { key : bytes; data : bytes; iv : bytes; decryptor : AES256Cipher.t }.

Definition init (key : string) (data iv : value) : M t :=
  k ← sha256_digest (encode_utf8 key);
  d ← standard_b64decode data;
  i ← standard_b64decode iv;
  c ← AES256Cipher.init k i;
  mret (Make k d i c).

Definition decrypt `{Cipher, Json} (self : t) : M value :=
  value ← AES256Cipher.decrypt (decryptor self) (data self);
  value ← match decode_utf8 value with
          | Some text =>
              match json_loads text with
              | Some v => mret v
              | None => raise (ChefDecryptionError MSG_KEY_INCORRECT)
              end
          | None => raise (ChefDecryptionError MSG_KEY_INCORRECT)
          end;
  subscript value "json_wrapper".

End DecryptorVersion1.

(** [itertools.zip_longest] with the default fill value [None] *)
Fixpoint zip_longest {A B} (a : list A) (b : list B) : list (option A * option B) :=
  match a, b with
  | [], [] => []
  | x :: a', [] => (Some x, None) :: zip_longest a' []
  | [], y :: b' => (None, Some y) :: map (fun y => (None, Some y)) b'
  | x :: a', y :: b' => (Some x, Some y) :: zip_longest a' b'
  end.

Module DecryptorVersion2.

Record t := Make { base : DecryptorVersion1.t; hmac : bytes; encoded_data : string }.

Definition init (key : string) (data iv hmac : value) : M t :=
  b ← DecryptorVersion1.init key data iv;
  h ← standard_b64decode hmac;
  match data with
  | PStr s => mret (Make b h s)
  | _ => raise TypeError
  end.

(** The comparison loop: [valid |= expected_char ^ candidate_char]; the
    operands are ints, and [^] with the fill value [None] is a [TypeError]. *)
Fixpoint compare_loop (pairs : list (option byte * option byte)) (valid : N) : result N :=
  match pairs with
  | [] => Return valid
  | (Some expected_char, Some candidate_char) :: rest =>
      compare_loop rest (N.lor valid (N.lxor (Byte.to_N expected_char) (Byte.to_N candidate_char)))
  | _ => Raise TypeError
  end.

Definition _validate_hmac (self : t) : M bool :=
  expected_hmac ← hmac_new (DecryptorVersion1.key (base self)) (encode_utf8 (encoded_data self));
  let valid := N.lxor (N.of_nat (length expected_hmac)) (N.of_nat (length (hmac self))) in
  match compare_loop (zip_longest expected_hmac (hmac self)) valid with
  | Return valid => mret (valid =? 0)
  | Raise e => raise e
  end.

Definition decrypt `{Cipher, Json} (self : t) : M value :=
  ok ← _validate_hmac self;
  if ok : bool then DecryptorVersion1.decrypt (base self)
  else raise (ChefDecryptionError MSG_HMAC_FAILED).

End DecryptorVersion2.

Inductive decryptor :=
| DecV1 (d : DecryptorVersion1.t)
| DecV2 (d : DecryptorVersion2.t).

Definition decryptor_decrypt `{Cipher, Json} (d : decryptor) : M value :=
  match d with
  | DecV1 d => DecryptorVersion1.decrypt d
  | DecV2 d => DecryptorVersion2.decrypt d
  end.

(** A call that matches neither branch falls off the end and returns
    [None]. *)
Definition create_decryptor (key : string) (data : gmap string value) : M (option decryptor) :=
  version ← get_decryption_version data;
  if py_eq_int version 1 then
    encrypted_data ← getitem data "encrypted_data";
    iv ← getitem data "iv";
    d ← DecryptorVersion1.init key encrypted_data iv;
    mret (Some (DecV1 d))
  else if py_eq_int version 2 then
    encrypted_data ← getitem data "encrypted_data";
    iv ← getitem data "iv";
    hmac ← getitem data "hmac";
    d ← DecryptorVersion2.init key encrypted_data iv hmac;
    mret (Some (DecV2 d))
  else mret None.

(** ** EncryptedDataBagItem: the per-field hooks, for a field other than [id] *)

(** [create_decryptor(key, raw).decrypt()] of [__getitem__] *)
Definition decrypt_field `{Cipher, Json} (key : string) (raw : gmap string value) : M value :=
  d ← create_decryptor key raw;
  match d with
  | Some d => decryptor_decrypt d
  | None => raise AttributeError
  end.

(** [create_encryptor(key, value, version).to_dict()] of [__setitem__] *)
Definition encrypt_field `{Cipher, Json} (key : string) (data version : value)
  : M (gmap string value) :=
  e ← create_encryptor key data version;
  '(d, _) ← encryptor_to_dict e;
  mret d.

(** ** EncryptedDataBagItem: the item and its hooks *)

(** The item as the hooks see it: [self.api] with the passphrase and the
    version to encrypt at, and [self.raw_data].  An envelope kept in
    [raw_data] is a [PDict]; the functions above take it as a map.  An
    entry that is not a dict cannot be subscripted by a field name, so
    [create_decryptor] fails on it with [TypeError] before any other
    step. *)
Module EncryptedDataBagItem.

Record ChefAPI := { encryption_key : string; encryption_version : value }.

Record t := Make { api : ChefAPI; raw_data : gmap string value }.

Definition __getitem__ `{Cipher, Json} (self : t) (key : string) : M value :=
  if String.eqb key "id" then getitem (raw_data self) key
  else
    raw ← getitem (raw_data self) key;
    match raw with
    | PDict kvs => decrypt_field (encryption_key (api self)) (list_to_map kvs)
    | _ => raise TypeError
    end.

Definition __setitem__ `{Cipher, Json} (self : t) (key : string) (val : value) : M t :=
  if String.eqb key "id" then mret (Make (api self) (<[key := val]> (raw_data self)))
  else
    d ← encrypt_field (encryption_key (api self)) val (encryption_version (api self));
    mret (Make (api self) (<[key := PDict (map_to_list d)]> (raw_data self))).

End EncryptedDataBagItem.

(** * Facts about the primitives *)

Lemma byte_of_to_N (b : byte) : byte_of_N (Byte.to_N b) = b.
Proof.
  unfold byte_of_N.
  pose proof (Byte.to_N_bounded b) as Hb.
  rewrite N.mod_small by lia.
  by rewrite Byte.of_to_N.
Qed.

Lemma encode_utf8_str_of_bytes (b : bytes) : encode_utf8 (str_of_bytes b) = b.
Proof. apply list_byte_of_string_of_list_byte. Qed.

Lemma str_of_bytes_encode_utf8 (s : string) : str_of_bytes (encode_utf8 s) = s.
Proof. apply string_of_list_byte_of_string. Qed.

(** Exhaustive checks over bytes and pairs of bytes. *)
Definition all_bytes : list byte := map (fun i => byte_of_N (N.of_nat i)) (seq 0 256).

Lemma in_all_bytes (b : byte) : In b all_bytes.
Proof.
  unfold all_bytes. apply in_map_iff.
  exists (N.to_nat (Byte.to_N b)). split.
  - rewrite N2Nat.id. apply byte_of_to_N.
  - apply in_seq. pose proof (Byte.to_N_bounded b). lia.
Qed.

Lemma forall_byte (P : byte -> bool) :
  forallb P all_bytes = true -> forall b, P b = true.
Proof.
  intros HP b. rewrite forallb_forall in HP. apply HP, in_all_bytes.
Qed.

Lemma forall_byte2 (P : byte -> byte -> bool) :
  forallb (fun x => forallb (P x) all_bytes) all_bytes = true ->
  forall x y, P x y = true.
Proof.
  intros HP x y.
  apply (forall_byte (P x)). revert x. apply (forall_byte _ HP).
Qed.

Lemma sha256_digest_length (m : bytes) : length (SHA256.digest m) = 32%nat.
Proof. reflexivity. Qed.

(** The key normalisation of HMAC: a key longer than one block and its
    SHA-256 digest give the same tag. *)
Lemma hmac_long_key (key msg : bytes) :
  (block_size < length key)%nat ->
  hmac_sha256 key msg = hmac_sha256 (SHA256.digest key) msg.
Proof.
  intros Hlen. unfold hmac_sha256, hmac_block_key.
  rewrite sha256_digest_length.
  destruct (block_size <? length key)%nat eqn:E.
  - reflexivity.
  - apply Nat.ltb_ge in E. lia.
Qed.

Lemma hmac_sha256_length (key msg : bytes) : length (hmac_sha256 key msg) = 32%nat.
Proof. reflexivity. Qed.

(** ** Base64: decoding inverts encoding *)

Module Base64Facts.
Import Base64.

(** A sextet whose character is in the alphabet and decodes to itself. *)
Definition sextet_ok (n : N) : bool :=
  negb (Byte.eqb (char n) PAD)
  && match value_of (char n) with
     | Some v => v =? n
     | None => false
     end.

Lemma sextet_ok_spec (n : N) :
  sextet_ok n = true -> Byte.eqb (char n) PAD = false /\ value_of (char n) = Some n.
Proof.
  unfold sextet_ok. intros H. apply andb_prop in H as [H1 H2].
  split; [by apply negb_true_iff|].
  destruct (value_of (char n)) as [v|]; [|done].
  apply N.eqb_eq in H2. by subst.
Qed.

Lemma s1_ok (x : byte) : sextet_ok (s1 x) = true.
Proof. revert x. apply forall_byte. vm_compute. reflexivity. Qed.

Lemma s2_ok (x y : byte) : sextet_ok (s2 x y) = true.
Proof. revert x y. apply forall_byte2. vm_compute. reflexivity. Qed.

Lemma s3_ok (y z : byte) : sextet_ok (s3 y z) = true.
Proof. revert y z. apply forall_byte2. vm_compute. reflexivity. Qed.

Lemma s4_ok (z : byte) : sextet_ok (s4 z) = true.
Proof. revert z. apply forall_byte. vm_compute. reflexivity. Qed.

Lemma out1 (x y : byte) :
  byte_of_N (N.lor (N.shiftl (s1 x) 2) (N.shiftr (s2 x y) 4)) = x.
Proof.
  apply Byte.byte_dec_bl. revert x y.
  apply (forall_byte2 (fun x y =>
    Byte.eqb (byte_of_N (N.lor (N.shiftl (s1 x) 2) (N.shiftr (s2 x y) 4))) x)).
  vm_compute. reflexivity.
Qed.

Lemma left2 (x y : byte) : N.land (s2 x y) 15 = N.shiftr (Byte.to_N y) 4.
Proof.
  apply N.eqb_eq. revert x y.
  apply (forall_byte2 (fun x y => N.land (s2 x y) 15 =? N.shiftr (Byte.to_N y) 4)).
  vm_compute. reflexivity.
Qed.

Lemma out2 (y z : byte) :
  byte_of_N (N.lor (N.shiftl (N.shiftr (Byte.to_N y) 4) 4) (N.shiftr (s3 y z) 2)) = y.
Proof.
  apply Byte.byte_dec_bl. revert y z.
  apply (forall_byte2 (fun y z =>
    Byte.eqb (byte_of_N (N.lor (N.shiftl (N.shiftr (Byte.to_N y) 4) 4)
                               (N.shiftr (s3 y z) 2))) y)).
  vm_compute. reflexivity.
Qed.

Lemma left3 (y z : byte) : N.land (s3 y z) 3 = N.shiftr (Byte.to_N z) 6.
Proof.
  apply N.eqb_eq. revert y z.
  apply (forall_byte2 (fun y z => N.land (s3 y z) 3 =? N.shiftr (Byte.to_N z) 6)).
  vm_compute. reflexivity.
Qed.

Lemma out3 (z : byte) :
  byte_of_N (N.lor (N.shiftl (N.shiftr (Byte.to_N z) 6) 6) (s4 z)) = z.
Proof.
  apply Byte.byte_dec_bl. revert z.
  apply (forall_byte (fun z =>
    Byte.eqb (byte_of_N (N.lor (N.shiftl (N.shiftr (Byte.to_N z) 6) 6) (s4 z))) z)).
  vm_compute. reflexivity.
Qed.

(** One decoding step on the character of a checked sextet. *)
Lemma a2b_sextet (n : N) (s : bytes) (quad_pos : nat) (leftchar : N) (pads : nat) (out : bytes) :
  sextet_ok n = true ->
  a2b (char n :: s) quad_pos leftchar pads out =
  match quad_pos with
  | 0%nat => a2b s 1%nat n 0%nat out
  | 1%nat => a2b s 2%nat (N.land n 15) 0%nat
               (out ++ [byte_of_N (N.lor (N.shiftl leftchar 2) (N.shiftr n 4))])
  | 2%nat => a2b s 3%nat (N.land n 3) 0%nat
               (out ++ [byte_of_N (N.lor (N.shiftl leftchar 4) (N.shiftr n 2))])
  | _ => a2b s 0%nat 0 0%nat (out ++ [byte_of_N (N.lor (N.shiftl leftchar 6) n)])
  end.
Proof.
  intros Hn. apply sextet_ok_spec in Hn as [Hpad Hval].
  cbn [a2b]. rewrite Hpad, Hval. reflexivity.
Qed.

Lemma triple_ind (P : bytes -> Prop) :
  P [] -> (forall x, P [x]) -> (forall x y, P [x; y]) ->
  (forall x y z rest, P rest -> P (x :: y :: z :: rest)) ->
  forall b, P b.
Proof.
  intros H0 H1 H2 H3.
  assert (forall b, P b /\ (forall x, P (x :: b)) /\ (forall x y, P (x :: y :: b))) as H.
  { induction b as [|z b (IH0 & IH1 & IH2)]; repeat split; auto. }
  intros b. apply H.
Qed.

Lemma a2b_encode (b : bytes) :
  forall leftchar pads out, a2b (encode b) 0 leftchar pads out = Some (out ++ b).
Proof.
  induction b as [|x|x y|x y z rest IH] using triple_ind; intros leftchar pads out.
  - cbn. by rewrite app_nil_r.
  - cbn [encode].
    rewrite (a2b_sextet _ _ _ _ _ _ (s1_ok x)), (a2b_sextet _ _ _ _ _ _ (s2_ok x x00)).
    rewrite out1. reflexivity.
  - cbn [encode].
    rewrite (a2b_sextet _ _ _ _ _ _ (s1_ok x)), (a2b_sextet _ _ _ _ _ _ (s2_ok x y)),
            (a2b_sextet _ _ _ _ _ _ (s3_ok y x00)).
    rewrite out1, left2, out2, <- app_assoc. reflexivity.
  - cbn [encode].
    rewrite (a2b_sextet _ _ _ _ _ _ (s1_ok x)), (a2b_sextet _ _ _ _ _ _ (s2_ok x y)),
            (a2b_sextet _ _ _ _ _ _ (s3_ok y z)), (a2b_sextet _ _ _ _ _ _ (s4_ok z)).
    rewrite out1, left2, out2, left3, out3, IH, <- !app_assoc. reflexivity.
Qed.

Lemma decode_encode (b : bytes) : decode (encode b) = Some b.
Proof. unfold decode. by rewrite a2b_encode. Qed.

Lemma char_ascii (n : N) : (Byte.to_N (char n) <=? 0x7f) = true.
Proof.
  unfold char.
  destruct (nth_in_or_default (N.to_nat n) alphabet x00) as [Hin | ->]; [|reflexivity].
  assert (forallb (fun c => Byte.to_N c <=? 0x7f) alphabet = true) as H
    by (vm_compute; reflexivity).
  rewrite forallb_forall in H. by apply H.
Qed.

Lemma encode_ascii (b : bytes) :
  forallb (fun c => Byte.to_N c <=? 0x7f) (encode b) = true.
Proof.
  induction b as [|x|x y|x y z rest IH] using triple_ind; cbn [encode forallb];
    rewrite ?char_ascii, ?IH; reflexivity.
Qed.

End Base64Facts.

Lemma standard_b64decode_b64_text (b : bytes) :
  standard_b64decode (PStr (b64_text b)) = mret b.
Proof.
  unfold standard_b64decode, b64_text, is_ascii.
  rewrite encode_utf8_str_of_bytes, Base64Facts.encode_ascii, Base64Facts.decode_encode.
  reflexivity.
Qed.

(** * A model of the collaborators

    A small cipher and a small JSON codec that implement the two
    interfaces.  They serve to run the envelope code on concrete inputs. *)

Definition xor_byte (a b : byte) : byte := byte_of_N (N.lxor (Byte.to_N a) (Byte.to_N b)).

Module ModelCipher.

(** PKCS#7 padding to blocks of 16 bytes. *)
Definition pkcs7_pad (b : bytes) : bytes :=
  let n := (16 - length b mod 16)%nat in
  b ++ repeat (byte_of_N (N.of_nat n)) n.

Definition pkcs7_unpad (b : bytes) : option bytes :=
  match last b with
  | Some c =>
      let n := N.to_nat (Byte.to_N c) in
      if (0 <? n)%nat && (n <=? 16)%nat && (n <=? length b)%nat && (length b mod 16 =? 0)%nat
         && forallb (Byte.eqb c) (skipn (length b - n) b)
      then Some (firstn (length b - n) b)
      else None
  | None => None
  end.

(** A byte-wise mask derived from the key and the IV. *)
Definition mask (key iv : bytes) : byte := xor_byte (nth 0 key x00) (nth 0 iv x00).

Definition encrypt (key iv plaintext : bytes) : bytes :=
  map (xor_byte (mask key iv)) (pkcs7_pad plaintext).

Definition decrypt (key iv ciphertext : bytes) : option bytes :=
  pkcs7_unpad (map (xor_byte (mask key iv)) ciphertext).

Definition instance : Cipher :=
  {| EVP_MAX_IV_LENGTH := 16; cipher_encrypt := encrypt; cipher_decrypt := decrypt |}.

End ModelCipher.

Module ModelJson.

Definition dquote : ascii := "034"%char.

Definition quote (s : string) : string := String dquote (s +:+ String dquote EmptyString).

Fixpoint dumps (v : value) : string :=
  match v with
  | PNone => "null"
  | PBool true => "true"
  | PBool false => "false"
  | PInt z => NilEmpty.string_of_int (Z.to_int z)
  | PStr s => quote s
  | PList items =>
      "[" +:+ (fix go (l : list value) : string :=
                 match l with
                 | [] => ""
                 | x :: r => match r with
                             | [] => dumps x
                             | _ => dumps x +:+ ", " +:+ go r
                             end
                 end) items +:+ "]"
  | PDict kvs =>
      "{" +:+ (fix go (l : list (string * value)) : string :=
                 match l with
                 | [] => ""
                 | (k, x) :: r => match r with
                                  | [] => quote k +:+ ": " +:+ dumps x
                                  | _ => quote k +:+ ": " +:+ dumps x +:+ ", " +:+ go r
                                  end
                 end) kvs +:+ "}"
  end.

Fixpoint skip_ws (s : string) : string :=
  match s with
  | String c r => if Ascii.eqb c " " then skip_ws r else s
  | EmptyString => s
  end.

(** The text of a string up to its closing quote; escapes are not read. *)
Fixpoint parse_string (s : string) : option (string * string) :=
  match s with
  | EmptyString => None
  | String c r =>
      if Ascii.eqb c dquote then Some (EmptyString, r)
      else if Ascii.eqb c "\" then None
      else '(t, r') ← parse_string r; Some (String c t, r')
  end.

Definition is_digit (c : ascii) : bool :=
  (48 <=? nat_of_ascii c)%nat && (nat_of_ascii c <=? 57)%nat.

Fixpoint parse_digits (s : string) (acc : Z) : Z * string :=
  match s with
  | String c r =>
      if is_digit c then parse_digits r (10 * acc + Z.of_nat (nat_of_ascii c - 48))%Z
      else (acc, s)
  | EmptyString => (acc, s)
  end.

Fixpoint strip_prefix (p s : string) : option string :=
  match p, s with
  | EmptyString, _ => Some s
  | String a p', String b s' => if Ascii.eqb a b then strip_prefix p' s' else None
  | _, _ => None
  end.

Definition parse_number (s : string) : option (value * string) :=
  match s with
  | String c r =>
      if is_digit c then let '(z, r') := parse_digits s 0 in Some (PInt z, r')
      else None
  | EmptyString => None
  end.

Fixpoint parse_value (fuel : nat) (s : string) : option (value * string) :=
  match fuel with
  | O => None
  | S fuel =>
      match skip_ws s with
      | EmptyString => None
      | String c r =>
          if Ascii.eqb c dquote then '(t, r') ← parse_string r; Some (PStr t, r')
          else if Ascii.eqb c "[" then
            match skip_ws r with
            | String c' r' => if Ascii.eqb c' "]" then Some (PList [], r')
                              else parse_items fuel r []
            | EmptyString => None
            end
          else if Ascii.eqb c "{" then
            match skip_ws r with
            | String c' r' => if Ascii.eqb c' "}" then Some (PDict [], r')
                              else parse_members fuel r []
            | EmptyString => None
            end
          else if Ascii.eqb c "-" then
            '(v, r') ← parse_number r;
            match v with
            | PInt z => Some (PInt (- z), r')
            | _ => None
            end
          else if Ascii.eqb c "n" then r' ← strip_prefix "ull" r; Some (PNone, r')
          else if Ascii.eqb c "t" then r' ← strip_prefix "rue" r; Some (PBool true, r')
          else if Ascii.eqb c "f" then r' ← strip_prefix "alse" r; Some (PBool false, r')
          else parse_number (String c r)
      end
  end
with parse_items (fuel : nat) (s : string) (acc : list value) : option (value * string) :=
  match fuel with
  | O => None
  | S fuel =>
      '(v, r) ← parse_value fuel s;
      match skip_ws r with
      | String c r' =>
          if Ascii.eqb c "," then parse_items fuel r' (acc ++ [v])
          else if Ascii.eqb c "]" then Some (PList (acc ++ [v]), r')
          else None
      | EmptyString => None
      end
  end
with parse_members (fuel : nat) (s : string) (acc : list (string * value))
  : option (value * string) :=
  match fuel with
  | O => None
  | S fuel =>
      match skip_ws s with
      | String c r =>
          if Ascii.eqb c dquote then
            '(k, r) ← parse_string r;
            match skip_ws r with
            | String c' r =>
                if Ascii.eqb c' ":" then
                  '(v, r) ← parse_value fuel r;
                  match skip_ws r with
                  | String c'' r' =>
                      if Ascii.eqb c'' "," then parse_members fuel r' (acc ++ [(k, v)])
                      else if Ascii.eqb c'' "}" then Some (PDict (acc ++ [(k, v)]), r')
                      else None
                  | EmptyString => None
                  end
                else None
            | EmptyString => None
            end
          else None
      | EmptyString => None
      end
  end.

Definition loads (s : string) : option value :=
  '(v, r) ← parse_value (S (2 * String.length s)) s;
  match skip_ws r with
  | EmptyString => Some v
  | _ => None
  end.

Definition instance : Json := {| json_dumps := dumps; json_loads := loads |}.

End ModelJson.

(** A fixed entropy stream and the initial world. *)
Definition model_world : world :=
  World (fun i => byte_of_N (N.of_nat (i * 37 + 11))) 0 [].

(** * Properties of the envelope code *)

Local Open Scope string_scope.
Local Open Scope list_scope.

(** ** Running a computation *)

Lemma bind_return {A B} (m : M A) (f : A -> M B) (w w' : world) (a : A) :
  m w = (Return a, w') -> (m ≫= f) w = f a w'.
Proof. intros Hm. unfold mbind, M_bind. by rewrite Hm. Qed.

Lemma bind_raise {A B} (m : M A) (f : A -> M B) (w w' : world) (e : exn) :
  m w = (Raise e, w') -> (m ≫= f) w = (Raise e, w').
Proof. intros Hm. unfold mbind, M_bind. by rewrite Hm. Qed.

(** Unfolds the monad and the logging primitives, and nothing else. *)
Ltac run_M :=
  cbv beta iota delta
      [mbind M_bind mret M_ret raise log sha256_digest urandom hmac_new
       AES256Cipher.init entropy cursor trace].

(** The world after one more library call. *)
Definition logged (e : event) (w : world) : world :=
  World (entropy w) (cursor w) (trace w ++ [e]).

Lemma sha256_digest_run (m : bytes) (w : world) :
  sha256_digest m w = (Return (SHA256.digest m), logged (EvDigest m) w).
Proof. reflexivity. Qed.

Lemma hmac_new_run (key msg : bytes) (w : world) :
  hmac_new key msg w = (Return (hmac_sha256 key msg), logged (EvHmac key msg) w).
Proof. reflexivity. Qed.

(** No call of the cipher's [decrypt] among the events. *)
Definition is_decryption (e : event) : bool :=
  match e with
  | EvCipherDecrypt _ _ _ => true
  | _ => false
  end.

(** ** Version dispatch on decryption *)

Lemma supported_text_1 :
  bool_decide (py_str (PStr "1") ∈ map (fun n => py_str (PInt n)) SUPPORTED_ENCRYPTION_VERSIONS)
  = true.
Proof. vm_compute. reflexivity. Qed.

Lemma supported_text_2 :
  bool_decide (py_str (PStr "2") ∈ map (fun n => py_str (PInt n)) SUPPORTED_ENCRYPTION_VERSIONS)
  = true.
Proof. vm_compute. reflexivity. Qed.

Lemma supported_int_2 :
  bool_decide (py_str (PInt 2) ∈ map (fun n => py_str (PInt n)) SUPPORTED_ENCRYPTION_VERSIONS)
  = true.
Proof. vm_compute. reflexivity. Qed.

Lemma supported_int_1 :
  bool_decide (py_str (PInt 1) ∈ map (fun n => py_str (PInt n)) SUPPORTED_ENCRYPTION_VERSIONS)
  = true.
Proof. vm_compute. reflexivity. Qed.

Lemma get_decryption_version_supported (data : gmap string value) (v : value) :
  data !! "version" = Some v ->
  bool_decide (py_str v ∈ map (fun n => py_str (PInt n)) SUPPORTED_ENCRYPTION_VERSIONS) = true ->
  get_decryption_version data = mret v.
Proof. intros Hv Hs. unfold get_decryption_version. by rewrite Hv, Hs. Qed.

Example get_decryption_version_3 (data : gmap string value) (w : world) :
  data !! "version" = Some (PInt 3) ->
  get_decryption_version data w = (Raise (ChefUnsupportedEncryptionVersionError (PInt 3)), w).
Proof. intros Hv. unfold get_decryption_version. rewrite Hv. reflexivity. Qed.

(** The V1 path of the dispatch, written out. *)
Definition create_V1 (key : string) (data : gmap string value) : M (option decryptor) :=
  encrypted_data ← getitem data "encrypted_data";
  iv ← getitem data "iv";
  d ← DecryptorVersion1.init key encrypted_data iv;
  mret (Some (DecV1 d)).

(** The V2 path of the dispatch, written out. *)
Definition create_V2 (key : string) (data : gmap string value) : M (option decryptor) :=
  encrypted_data ← getitem data "encrypted_data";
  iv ← getitem data "iv";
  hmac ← getitem data "hmac";
  d ← DecryptorVersion2.init key encrypted_data iv hmac;
  mret (Some (DecV2 d)).

Lemma create_decryptor_int_1 (key : string) (data : gmap string value) :
  data !! "version" = Some (PInt 1) -> create_decryptor key data = create_V1 key data.
Proof.
  intros Hv. unfold create_decryptor.
  rewrite (get_decryption_version_supported _ _ Hv supported_int_1). reflexivity.
Qed.

Lemma create_decryptor_int_2 (key : string) (data : gmap string value) :
  data !! "version" = Some (PInt 2) -> create_decryptor key data = create_V2 key data.
Proof.
  intros Hv. unfold create_decryptor.
  rewrite (get_decryption_version_supported _ _ Hv supported_int_2). reflexivity.
Qed.

(** A decryptor that [create_V1] returns is a V1 decryptor. *)
Lemma create_V1_returns_V1 (key : string) (data : gmap string value) (w w' : world)
      (r : option decryptor) :
  create_V1 key data w = (Return r, w') -> exists d, r = Some (DecV1 d).
Proof.
  unfold create_V1, getitem, mbind, M_bind.
  destruct (data !! "encrypted_data") as [ed|]; [|discriminate].
  destruct (data !! "iv") as [iv|]; [|discriminate].
  cbn. destruct (DecryptorVersion1.init key ed iv w) as [[e|d] w1]; [discriminate|].
  cbn. intros [= <- _]. by exists d.
Qed.

(** C7. An envelope dict without a [version] field is given version 1:
    [get_decryption_version] returns 1, [create_decryptor] is the V1
    construction from [encrypted_data] and [iv] (the same as with an
    explicit [version: 1]), and every decryptor it returns is a V1
    decryptor, so that decryption runs [DecryptorVersion1.decrypt]. *)
Theorem C7_missing_version_defaults_to_V1 (key : string) (data : gmap string value) :
  data !! "version" = None ->
  get_decryption_version data = mret (PInt 1)
  /\ create_decryptor key data = create_V1 key data
  /\ create_decryptor key data = create_decryptor key (<["version" := PInt 1]> (data))
  /\ (forall w w' r, create_decryptor key data w = (Return r, w') ->
        exists d, r = Some (DecV1 d)
                  /\ forall (C : Cipher) (J : Json),
                       decryptor_decrypt (DecV1 d) = DecryptorVersion1.decrypt d).
Proof.
  intros Hv.
  assert (get_decryption_version data = mret (PInt 1)) as Hg.
  { unfold get_decryption_version. by rewrite Hv. }
  assert (create_decryptor key data = create_V1 key data) as Hc.
  { unfold create_decryptor. rewrite Hg. reflexivity. }
  repeat split; [done | done | | ].
  - rewrite Hc, (create_decryptor_int_1 key (<["version" := PInt 1]> data))
      by apply lookup_insert_eq.
    unfold create_V1, getitem. by rewrite !lookup_insert_ne.
  - intros w w' r Hr. rewrite Hc in Hr.
    destruct (create_V1_returns_V1 _ _ _ _ _ Hr) as [d ->]. eauto.
Qed.

(** C10. With [version: 2] and no [hmac] key, [create_decryptor] raises the
    [KeyError] of a field lookup and leaves the world as it was: nothing is
    hashed, decoded, validated or decrypted.  When [encrypted_data] and
    [iv] are present the missing key reported is [hmac]. *)
Theorem C10_missing_hmac_raises_KeyError (key : string) (data : gmap string value) (w : world) :
  data !! "version" = Some (PInt 2) ->
  data !! "hmac" = None ->
  (exists k, create_decryptor key data w = (Raise (KeyError (PStr k)), w)
             /\ k ∈ ["encrypted_data"; "iv"; "hmac"])
  /\ (is_Some (data !! "encrypted_data") -> is_Some (data !! "iv") ->
      create_decryptor key data w = (Raise (KeyError (PStr "hmac")), w)).
Proof.
  intros Hv Hh. rewrite (create_decryptor_int_2 _ _ Hv).
  unfold create_V2, getitem, mbind, M_bind, raise. rewrite Hh.
  destruct (data !! "encrypted_data") as [ed|]; cbn.
  - destruct (data !! "iv") as [iv|]; cbn.
    + split; [|done]. exists "hmac". split; [done|]. set_solver.
    + split; [|by intros _ [? ?]]. exists "iv". split; [done|]. set_solver.
  - split; [|by intros [? ?]]. exists "encrypted_data". split; [done|]. set_solver.
Qed.

(** C4. A [version] field holding the text "1" or "2" passes the check of
    [get_decryption_version], which returns the text unchanged; it equals
    neither the integer 1 nor the integer 2, so [create_decryptor] builds
    no decryptor and returns [None], and the field hook fails with
    [AttributeError]. *)
Theorem C4_text_version_builds_no_decryptor
        (key : string) (data : gmap string value) (s : string) (w : world) :
  s = "1" \/ s = "2" ->
  data !! "version" = Some (PStr s) ->
  get_decryption_version data w = (Return (PStr s), w)
  /\ create_decryptor key data w = (Return None, w)
  /\ forall (C : Cipher) (J : Json), decrypt_field key data w = (Raise AttributeError, w).
Proof.
  intros Hs Hv.
  assert (get_decryption_version data = mret (PStr s)) as Hg.
  { apply get_decryption_version_supported; [done|].
    destruct Hs as [-> | ->]; [apply supported_text_1 | apply supported_text_2]. }
  assert (create_decryptor key data w = (Return None, w)) as Hc.
  { unfold create_decryptor. rewrite Hg. reflexivity. }
  repeat split; [by rewrite Hg | done |].
  intros C J. unfold decrypt_field. by rewrite (bind_return _ _ _ _ _ Hc).
Qed.

(** ** Version dispatch on encryption *)

(** The IV that a constructor run from world [w] draws. *)
Definition drawn_iv `{Cipher} (w : world) : bytes :=
  hexlify (map (entropy w) (seq (cursor w) (EVP_MAX_IV_LENGTH / 2))).

(** The library calls of one constructor run from world [w]. *)
Definition init_events `{Cipher} (key : string) (w : world) : list event :=
  [ EvDigest (encode_utf8 key);
    EvUrandom (EVP_MAX_IV_LENGTH / 2);
    EvCipherNew (SHA256.digest (encode_utf8 key)) (drawn_iv w) ].

Definition after_init `{Cipher} (key : string) (w : world) : world :=
  World (entropy w) (cursor w + EVP_MAX_IV_LENGTH / 2) (trace w ++ init_events key w).

Definition fresh_V1 `{Cipher} (key : string) (data : value) (w : world) : EncryptorVersion1.t :=
  let k := SHA256.digest (encode_utf8 key) in
  EncryptorVersion1.Make (encode_utf8 key) k data (drawn_iv w)
                         (AES256Cipher.Make k (drawn_iv w)) None.

Lemma EncryptorVersion1_init_run `{Cipher} (key : string) (data : value) (w : world) :
  EncryptorVersion1.init key data w = (Return (fresh_V1 key data w), after_init key w).
Proof.
  unfold EncryptorVersion1.init, after_init, init_events, fresh_V1, drawn_iv.
  run_M. by rewrite <- !app_assoc.
Qed.

Lemma EncryptorVersion2_init_run `{Cipher} (key : string) (data : value) (w : world) :
  EncryptorVersion2.init key data w
  = (Return (EncryptorVersion2.Make (fresh_V1 key data w) None), after_init key w).
Proof.
  unfold EncryptorVersion2.init.
  by rewrite (bind_return _ _ _ _ _ (EncryptorVersion1_init_run key data w)).
Qed.

(** What [create_encryptor] does, by cases on the requested version; both
    encryptors are built in every case. *)
Lemma create_encryptor_run `{Cipher} (key : string) (data version : value) (w : world) :
  create_encryptor key data version w =
  (if negb (hashable version) then Raise TypeError
   else if py_eq_int version 1 then Return (EncV1 (fresh_V1 key data w))
   else if py_eq_int version 2
        then Return (EncV2 (EncryptorVersion2.Make (fresh_V1 key data (after_init key w)) None))
   else Raise (ChefUnsupportedEncryptionVersionError version),
   after_init key (after_init key w)).
Proof.
  unfold create_encryptor, try_except.
  rewrite (bind_return _ _ _ _ _ (EncryptorVersion1_init_run key data w)).
  rewrite (bind_return _ _ _ _ _ (EncryptorVersion2_init_run key data (after_init key w))).
  destruct (hashable version); cbn; [|done].
  destruct (py_eq_int version 1); [done|].
  destruct (py_eq_int version 2); done.
Qed.

(** C3 (as the code has it). For a hashable version that is neither 1 nor
    2, [create_encryptor] raises the unsupported-version error carrying
    that version, after both encryptors were constructed: the passphrase
    is hashed twice, two IVs are drawn from the entropy source and two
    ciphers are built; nothing is encrypted and no tag is computed. *)
Theorem C3_unsupported_version_after_construction
        `{Cipher} (key : string) (data version : value) (w : world) :
  hashable version = true ->
  py_eq_int version 1 = false ->
  py_eq_int version 2 = false ->
  create_encryptor key data version w
  = (Raise (ChefUnsupportedEncryptionVersionError version), after_init key (after_init key w))
  /\ trace (after_init key (after_init key w))
     = trace w ++ init_events key w ++ init_events key (after_init key w)
  /\ cursor (after_init key (after_init key w))
     = (cursor w + EVP_MAX_IV_LENGTH / 2 + EVP_MAX_IV_LENGTH / 2)%nat.
Proof.
  intros Hh H1 H2. rewrite create_encryptor_run, Hh, H1, H2. cbn [negb].
  repeat split. cbn [after_init trace]. by rewrite <- app_assoc.
Qed.

(** ** Tag validation *)

Lemma byte_to_N_inj (x y : byte) : Byte.to_N x = Byte.to_N y -> x = y.
Proof.
  intros Hxy. apply (f_equal Byte.of_N) in Hxy. rewrite !Byte.of_to_N in Hxy. congruence.
Qed.

Lemma compare_loop_same_length (a b : bytes) :
  length a = length b ->
  forall valid, exists r,
    DecryptorVersion2.compare_loop (zip_longest a b) valid = Return r
    /\ (r = 0%N <-> valid = 0%N /\ a = b).
Proof.
  revert b. induction a as [|x a IH]; intros [|y b] Hlen valid; try discriminate.
  - exists valid. split; [reflexivity | tauto].
  - cbn [zip_longest DecryptorVersion2.compare_loop].
    injection Hlen as Hlen.
    destruct (IH b Hlen (N.lor valid (N.lxor (Byte.to_N x) (Byte.to_N y)))) as (r & Hr & Hiff).
    exists r. split; [done|]. rewrite Hiff, N.lor_eq_0_iff, N.lxor_eq_0_iff.
    split.
    + intros [[Hv Hxy] ->]. apply byte_to_N_inj in Hxy. by subst.
    + intros [Hv [= -> ->]]. done.
Qed.

Lemma compare_loop_other_length (a b : bytes) :
  length a <> length b ->
  forall valid, DecryptorVersion2.compare_loop (zip_longest a b) valid = Raise TypeError.
Proof.
  revert b. induction a as [|x a IH]; intros [|y b] Hlen valid; try done.
  cbn [zip_longest DecryptorVersion2.compare_loop]. apply IH. cbn in Hlen. lia.
Qed.

(** The tag that [_validate_hmac] recomputes, and the world after it. *)
Definition expected_hmac (self : DecryptorVersion2.t) : bytes :=
  hmac_sha256 (DecryptorVersion1.key (DecryptorVersion2.base self))
              (encode_utf8 (DecryptorVersion2.encoded_data self)).

Definition after_validation (self : DecryptorVersion2.t) (w : world) : world :=
  logged (EvHmac (DecryptorVersion1.key (DecryptorVersion2.base self))
                 (encode_utf8 (DecryptorVersion2.encoded_data self))) w.

(** For a stored tag of 32 bytes the validation returns a boolean that
    tells whether the stored tag is the recomputed one. *)
Lemma validate_hmac_32 (self : DecryptorVersion2.t) (w : world) :
  length (DecryptorVersion2.hmac self) = 32%nat ->
  exists ok : bool,
    DecryptorVersion2._validate_hmac self w = (Return ok, after_validation self w)
    /\ (ok = true <-> DecryptorVersion2.hmac self = expected_hmac self).
Proof.
  intros Hlen. unfold DecryptorVersion2._validate_hmac.
  rewrite (bind_return _ _ _ _ _ (hmac_new_run _ _ w)).
  fold (expected_hmac self). fold (after_validation self w).
  destruct (compare_loop_same_length (expected_hmac self) (DecryptorVersion2.hmac self))
    with (valid := N.lxor (N.of_nat (length (expected_hmac self)))
                          (N.of_nat (length (DecryptorVersion2.hmac self))))
    as (r & Hr & Hiff).
  { by rewrite Hlen. }
  rewrite Hr. exists (r =? 0)%N. split; [done|].
  assert (length (expected_hmac self) = 32%nat) as Hexp
    by (unfold expected_hmac; apply hmac_sha256_length).
  rewrite N.eqb_eq, Hiff, Hlen, Hexp.
  change (N.lxor (N.of_nat 32) (N.of_nat 32)) with 0%N.
  split; [intros [_ Heq]; symmetry; exact Heq | intros Heq; split; [reflexivity | symmetry; exact Heq]].
Qed.

Lemma validate_hmac_other_length (self : DecryptorVersion2.t) (w : world) :
  length (DecryptorVersion2.hmac self) <> 32%nat ->
  DecryptorVersion2._validate_hmac self w = (Raise TypeError, after_validation self w).
Proof.
  intros Hlen. unfold DecryptorVersion2._validate_hmac.
  rewrite (bind_return _ _ _ _ _ (hmac_new_run _ _ w)).
  rewrite compare_loop_other_length; [done|].
  by rewrite hmac_sha256_length.
Qed.

(** C5 (what the code does). A stored tag whose length is not 32 makes
    [_validate_hmac] raise [TypeError]: [zip_longest] pads the shorter
    buffer with [None], and the xor of an int with [None] fails.  No
    boolean is returned; for a stored tag of 32 bytes one is. *)
Theorem C5_length_mismatch_raises_TypeError (self : DecryptorVersion2.t) (w : world) :
  length (DecryptorVersion2.hmac self) <> 32%nat ->
  DecryptorVersion2._validate_hmac self w = (Raise TypeError, after_validation self w)
  /\ forall ok w', DecryptorVersion2._validate_hmac self w <> (Return ok, w').
Proof.
  intros Hlen. rewrite (validate_hmac_other_length self w Hlen). split; [done|].
  intros ok w'. discriminate.
Qed.

(** ** V2 decryption: validation first *)

Lemma V2_decrypt_tag_match `{Cipher, Json} (self : DecryptorVersion2.t) (w : world) :
  DecryptorVersion2.hmac self = expected_hmac self ->
  DecryptorVersion2.decrypt self w
  = DecryptorVersion1.decrypt (DecryptorVersion2.base self) (after_validation self w).
Proof.
  intros Htag.
  destruct (validate_hmac_32 self w) as (ok & Hrun & Hok).
  { by rewrite Htag. }
  unfold DecryptorVersion2.decrypt. rewrite (bind_return _ _ _ _ _ Hrun).
  apply Hok in Htag. by subst.
Qed.

Lemma V2_decrypt_tag_mismatch `{Cipher, Json} (self : DecryptorVersion2.t) (w : world) :
  length (DecryptorVersion2.hmac self) = 32%nat ->
  DecryptorVersion2.hmac self <> expected_hmac self ->
  DecryptorVersion2.decrypt self w
  = (Raise (ChefDecryptionError MSG_HMAC_FAILED), after_validation self w).
Proof.
  intros Hlen Htag.
  destruct (validate_hmac_32 self w Hlen) as (ok & Hrun & Hok).
  unfold DecryptorVersion2.decrypt. rewrite (bind_return _ _ _ _ _ Hrun).
  destruct ok; [|done]. by destruct Htag, Hok as [-> _].
Qed.

(** C6 (where the code departs from it). With a stored tag whose length is
    not 32, [decrypt] raises the [TypeError] of the validation instead of
    the HMAC error; the only library call made is the tag computation, so
    the cipher is not touched. *)
Theorem C6_wrong_length_tag_raises_TypeError
        `{Cipher, Json} (self : DecryptorVersion2.t) (w : world) :
  length (DecryptorVersion2.hmac self) <> 32%nat ->
  DecryptorVersion2.decrypt self w = (Raise TypeError, after_validation self w)
  /\ trace (after_validation self w)
     = trace w ++ [EvHmac (DecryptorVersion1.key (DecryptorVersion2.base self))
                          (encode_utf8 (DecryptorVersion2.encoded_data self))].
Proof.
  intros Hlen. split; [|done].
  unfold DecryptorVersion2.decrypt.
  by rewrite (bind_raise _ _ _ _ _ (validate_hmac_other_length self w Hlen)).
Qed.

(** ** Memoised encryption *)

(** The ciphertext an encryptor holds or, if it holds none yet, the one
    its first [encrypt()] computes. *)
Definition V1_ciphertext `{Cipher, Json} (s : EncryptorVersion1.t) : bytes :=
  match EncryptorVersion1.encrypted_data s with
  | Some ct => ct
  | None =>
      cipher_encrypt (AES256Cipher.key (EncryptorVersion1.encryptor s))
                     (AES256Cipher.iv (EncryptorVersion1.encryptor s))
                     (encode_utf8 (json_dumps (json_wrapper (EncryptorVersion1.data s))))
  end.

Definition V2_tag `{Cipher, Json} (s : EncryptorVersion2.t) : bytes :=
  match EncryptorVersion2.hmac s with
  | Some h => h
  | None => hmac_sha256 (EncryptorVersion1.plain_key (EncryptorVersion2.base s))
                        (Base64.encode (V1_ciphertext (EncryptorVersion2.base s)))
  end.

Definition ciphertext `{Cipher, Json} (e : encryptor) : bytes :=
  match e with
  | EncV1 s => V1_ciphertext s
  | EncV2 s => V1_ciphertext (EncryptorVersion2.base s)
  end.

(** The encryptor once [encrypt()] has run. *)
Definition V1_settle `{Cipher, Json} (s : EncryptorVersion1.t) : EncryptorVersion1.t :=
  EncryptorVersion1.set_encrypted_data s (V1_ciphertext s).

Definition settle `{Cipher, Json} (e : encryptor) : encryptor :=
  match e with
  | EncV1 s => EncV1 (V1_settle s)
  | EncV2 s => EncV2 (EncryptorVersion2.Make (V1_settle (EncryptorVersion2.base s))
                                             (Some (V2_tag s)))
  end.

(** The library calls of [encrypt()]: the cipher if no ciphertext is held,
    the tag computation if no tag is held. *)
Definition V1_encrypt_events `{Cipher, Json} (s : EncryptorVersion1.t) : list event :=
  match EncryptorVersion1.encrypted_data s with
  | Some _ => []
  | None =>
      [EvCipherEncrypt (AES256Cipher.key (EncryptorVersion1.encryptor s))
                       (AES256Cipher.iv (EncryptorVersion1.encryptor s))
                       (encode_utf8 (json_dumps (json_wrapper (EncryptorVersion1.data s))))]
  end.

Definition encrypt_events `{Cipher, Json} (e : encryptor) : list event :=
  match e with
  | EncV1 s => V1_encrypt_events s
  | EncV2 s =>
      V1_encrypt_events (EncryptorVersion2.base s)
      ++ match EncryptorVersion2.hmac s with
         | Some _ => []
         | None => [EvHmac (EncryptorVersion1.plain_key (EncryptorVersion2.base s))
                           (Base64.encode (V1_ciphertext (EncryptorVersion2.base s)))]
         end
  end.

Definition extended (w : world) (events : list event) : world :=
  World (entropy w) (cursor w) (trace w ++ events).

Definition encryptor_iv (e : encryptor) : bytes :=
  match e with
  | EncV1 s => EncryptorVersion1.iv s
  | EncV2 s => EncryptorVersion1.iv (EncryptorVersion2.base s)
  end.

(** A sequence of calls on one encryptor object. *)
Inductive call := CallEncrypt | CallToDict.

Definition perform `{Cipher, Json} (c : call) (e : encryptor) : M encryptor :=
  match c with
  | CallEncrypt => '(_, e') ← encryptor_encrypt e; mret e'
  | CallToDict => '(_, e') ← encryptor_to_dict e; mret e'
  end.

Fixpoint perform_all `{Cipher, Json} (calls : list call) (e : encryptor) : M encryptor :=
  match calls with
  | [] => mret e
  | c :: calls' => e' ← perform c e; perform_all calls' e'
  end.

(** [n] calls of [encrypt()] in a row, with the results in order. *)
Fixpoint encrypt_times `{Cipher, Json} (n : nat) (e : encryptor) : M (list bytes * encryptor) :=
  match n with
  | O => mret ([], e)
  | S n' =>
      '(ct, e') ← encryptor_encrypt e;
      '(cts, e'') ← encrypt_times n' e';
      mret (ct :: cts, e'')
  end.

Lemma extended_nil (w : world) : extended w [] = w.
Proof. destruct w. unfold extended. cbn. by rewrite app_nil_r. Qed.

Lemma V1_encrypt_run `{Cipher, Json} (s : EncryptorVersion1.t) (w : world) :
  EncryptorVersion1.encrypt s w
  = (Return (V1_ciphertext s, V1_settle s), extended w (V1_encrypt_events s)).
Proof.
  unfold EncryptorVersion1.encrypt, V1_settle, V1_ciphertext, V1_encrypt_events.
  destruct s as [pk k d iv c [ct|]]; cbn [EncryptorVersion1.encrypted_data].
  - by rewrite extended_nil.
  - reflexivity.
Qed.

Lemma V2_encrypt_run `{Cipher, Json} (s : EncryptorVersion2.t) (w : world) :
  EncryptorVersion2.encrypt s w
  = (Return (ciphertext (EncV2 s), EncryptorVersion2.Make (V1_settle (EncryptorVersion2.base s))
                                                          (Some (V2_tag s))),
     extended w (encrypt_events (EncV2 s))).
Proof.
  destruct w as [en cu tr], s as [[pk k d iv c [ct|]] [h|]];
    unfold EncryptorVersion2.encrypt, EncryptorVersion1.encrypt,
      EncryptorVersion2._generate_hmac, AES256Cipher.encrypt, ciphertext, V2_tag,
      V1_settle, V1_ciphertext, encrypt_events, V1_encrypt_events, extended,
      EncryptorVersion1.set_encrypted_data;
    cbv beta iota delta
        [mbind M_bind mret M_ret raise log hmac_new entropy cursor trace
         EncryptorVersion2.base EncryptorVersion2.hmac
         EncryptorVersion1.plain_key EncryptorVersion1.key EncryptorVersion1.data
         EncryptorVersion1.iv EncryptorVersion1.encryptor EncryptorVersion1.encrypted_data];
    rewrite <- ?app_assoc, ?app_nil_r; reflexivity.
Qed.

Lemma encrypt_run `{Cipher, Json} (e : encryptor) (w : world) :
  encryptor_encrypt e w = (Return (ciphertext e, settle e), extended w (encrypt_events e)).
Proof.
  destruct e as [s|s]; unfold encryptor_encrypt.
  - by rewrite (bind_return _ _ _ _ _ (V1_encrypt_run s w)).
  - by rewrite (bind_return _ _ _ _ _ (V2_encrypt_run s w)).
Qed.

Lemma settle_settled `{Cipher, Json} (e : encryptor) :
  ciphertext (settle e) = ciphertext e
  /\ settle (settle e) = settle e
  /\ encrypt_events (settle e) = []
  /\ encryptor_iv (settle e) = encryptor_iv e.
Proof. by destruct e as [[pk k d iv c ct]|[[pk k d iv c ct] h]]. Qed.

Lemma settled_encrypt `{Cipher, Json} (e : encryptor) (w : world) :
  encryptor_encrypt (settle e) w = (Return (ciphertext e, settle e), w).
Proof.
  rewrite encrypt_run. destruct (settle_settled e) as (-> & -> & -> & _).
  by rewrite extended_nil.
Qed.

Lemma settled_to_dict `{Cipher, Json} (e : encryptor) (w : world) :
  exists d, encryptor_to_dict (settle e) w = (Return (d, settle e), w).
Proof.
  destruct e as [s|s]; unfold encryptor_to_dict.
  - unfold EncryptorVersion1.to_dict.
    pose proof (settled_encrypt (EncV1 s) w) as Hrun. cbn [settle encryptor_encrypt] in Hrun.
    unfold mbind, M_bind in *.
    destruct (EncryptorVersion1.encrypt (V1_settle s) w) as [[e|[ct s']] w'];
      [discriminate|]. injection Hrun as -> -> ->. eauto.
  - unfold EncryptorVersion2.to_dict.
    pose proof (settled_encrypt (EncV2 s) w) as Hrun. cbn [settle encryptor_encrypt] in Hrun.
    unfold mbind, M_bind in *.
    destruct (EncryptorVersion2.encrypt _ w) as [[e|[ct s']] w']; [discriminate|].
    injection Hrun as -> -> ->. cbn. eauto.
Qed.

Lemma settled_perform_all `{Cipher, Json} (e : encryptor) (calls : list call) (w : world) :
  perform_all calls (settle e) w = (Return (settle e), w).
Proof.
  induction calls as [|c calls IH]; [done|].
  cbn [perform_all].
  assert (perform c (settle e) w = (Return (settle e), w)) as Hc.
  { destruct c; unfold perform.
    - by rewrite (bind_return _ _ _ _ _ (settled_encrypt e w)).
    - destruct (settled_to_dict e w) as [d Hd]. by rewrite (bind_return _ _ _ _ _ Hd). }
  by rewrite (bind_return _ _ _ _ _ Hc).
Qed.

Lemma settled_encrypt_times `{Cipher, Json} (e : encryptor) (n : nat) (w : world) :
  encrypt_times n (settle e) w = (Return (repeat (ciphertext e) n, settle e), w).
Proof.
  induction n as [|n IH]; [done|].
  cbn [encrypt_times repeat].
  rewrite (bind_return _ _ _ _ _ (settled_encrypt e w)).
  by rewrite (bind_return _ _ _ _ _ IH).
Qed.

(** Events that run the cipher or recompute a tag. *)
Definition is_encryption (e : event) : bool :=
  match e with
  | EvCipherEncrypt _ _ _ => true
  | _ => false
  end.

Definition is_tag (e : event) : bool :=
  match e with
  | EvHmac _ _ => true
  | _ => false
  end.

(** C9. The first [encrypt()] on an encryptor returns its ciphertext and
    leaves the object settled; [n >= 1] calls in a row return that same
    ciphertext [n] times and end in the state the first call reached, in
    the object and in the world: the entropy source is not read again (no
    new IV), the IV of the object is the one it was built with, the
    cipher runs at most once and the tag is computed at most once, and
    any further sequence of [encrypt()] and [to_dict()] calls changes
    neither the object nor the world. *)
Theorem C9_encrypt_is_memoised `{Cipher, Json} (e : encryptor) (w : world) (n : nat) :
  (1 <= n)%nat ->
  let w1 := extended w (encrypt_events e) in
  encryptor_encrypt e w = (Return (ciphertext e, settle e), w1)
  /\ encrypt_times n e w = (Return (repeat (ciphertext e) n, settle e), w1)
  /\ cursor w1 = cursor w
  /\ encryptor_iv (settle e) = encryptor_iv e
  /\ (length (filter is_encryption (encrypt_events e)) <= 1)%nat
  /\ (length (filter is_tag (encrypt_events e)) <= 1)%nat
  /\ (forall calls, perform_all calls (settle e) w1 = (Return (settle e), w1)).
Proof.
  intros Hn w1. split; [apply encrypt_run|].
  split.
  { destruct n as [|n]; [lia|]. cbn [encrypt_times repeat].
    rewrite (bind_return _ _ _ _ _ (encrypt_run e w)).
    by rewrite (bind_return _ _ _ _ _ (settled_encrypt_times e n _)). }
  split; [done|].
  split; [apply settle_settled|].
  split; [|split].
  - destruct e as [[pk k d iv c [ct|]]|[[pk k d iv c [ct|]] [h|]]]; vm_compute; lia.
  - destruct e as [[pk k d iv c [ct|]]|[[pk k d iv c [ct|]] [h|]]]; vm_compute; lia.
  - intros calls. apply settled_perform_all.
Qed.

(** ** V1 decryption and its errors *)

(** The decrypted bytes are not text, or the text is not JSON: the two
    failures that are a [ValueError] inside the [try] block. *)
Definition parse_fails `{Json} (plaintext : bytes) : Prop :=
  decode_utf8 plaintext = None
  \/ exists text, decode_utf8 plaintext = Some text /\ json_loads text = None.

(** The result of [DecryptorVersion1.decrypt], stage by stage. *)
Definition V1_outcome `{Cipher, Json} (self : DecryptorVersion1.t) : result value :=
  match cipher_decrypt (AES256Cipher.key (DecryptorVersion1.decryptor self))
                       (AES256Cipher.iv (DecryptorVersion1.decryptor self))
                       (DecryptorVersion1.data self) with
  | None => Raise CipherError
  | Some plaintext =>
      match decode_utf8 plaintext with
      | None => Raise (ChefDecryptionError MSG_KEY_INCORRECT)
      | Some text =>
          match json_loads text with
          | None => Raise (ChefDecryptionError MSG_KEY_INCORRECT)
          | Some (PDict kvs) =>
              match assoc "json_wrapper" kvs with
              | Some x => Return x
              | None => Raise (KeyError (PStr "json_wrapper"))
              end
          | Some _ => Raise TypeError
          end
      end
  end.

Definition after_decryption (self : DecryptorVersion1.t) (w : world) : world :=
  logged (EvCipherDecrypt (AES256Cipher.key (DecryptorVersion1.decryptor self))
                          (AES256Cipher.iv (DecryptorVersion1.decryptor self))
                          (DecryptorVersion1.data self)) w.

Lemma V1_decrypt_run `{Cipher, Json} (self : DecryptorVersion1.t) (w : world) :
  DecryptorVersion1.decrypt self w = (V1_outcome self, after_decryption self w).
Proof.
  unfold DecryptorVersion1.decrypt, V1_outcome, after_decryption, AES256Cipher.decrypt.
  run_M.
  destruct (cipher_decrypt _ _ _) as [plaintext|]; [|done].
  destruct (decode_utf8 plaintext) as [text|]; [|done].
  destruct (json_loads text) as [v|]; [|done].
  unfold subscript. destruct v; try done.
  by destruct (assoc "json_wrapper" kvs).
Qed.

(** C8 (as the code has it). [DecryptorVersion1.decrypt] raises the generic
    decryption error, with the message that the key is most likely
    incorrect, exactly when the cipher returned bytes that are not valid
    UTF-8 or whose text does not parse as JSON.  The cipher is called
    outside the [try] block, so its failure propagates as the cipher
    raised it.  A decrypted JSON value that is not an object raises
    [TypeError], an object without the key [json_wrapper] raises
    [KeyError], and otherwise the wrapped value is returned.  In every
    case the only library call is the one cipher decryption. *)
Theorem C8_parse_failure_is_the_generic_error
        `{Cipher, Json} (self : DecryptorVersion1.t) (w : world) :
  (forall plaintext,
      cipher_decrypt (AES256Cipher.key (DecryptorVersion1.decryptor self))
                     (AES256Cipher.iv (DecryptorVersion1.decryptor self))
                     (DecryptorVersion1.data self) = Some plaintext ->
      parse_fails plaintext ->
      DecryptorVersion1.decrypt self w
      = (Raise (ChefDecryptionError MSG_KEY_INCORRECT), after_decryption self w))
  /\ (forall msg w',
      DecryptorVersion1.decrypt self w = (Raise (ChefDecryptionError msg), w') ->
      msg = MSG_KEY_INCORRECT
      /\ exists plaintext,
          cipher_decrypt (AES256Cipher.key (DecryptorVersion1.decryptor self))
                         (AES256Cipher.iv (DecryptorVersion1.decryptor self))
                         (DecryptorVersion1.data self) = Some plaintext
          /\ parse_fails plaintext)
  /\ (cipher_decrypt (AES256Cipher.key (DecryptorVersion1.decryptor self))
                     (AES256Cipher.iv (DecryptorVersion1.decryptor self))
                     (DecryptorVersion1.data self) = None ->
      DecryptorVersion1.decrypt self w = (Raise CipherError, after_decryption self w))
  /\ (forall plaintext text v,
      cipher_decrypt (AES256Cipher.key (DecryptorVersion1.decryptor self))
                     (AES256Cipher.iv (DecryptorVersion1.decryptor self))
                     (DecryptorVersion1.data self) = Some plaintext ->
      decode_utf8 plaintext = Some text ->
      json_loads text = Some v ->
      ((forall kvs, v <> PDict kvs) ->
       DecryptorVersion1.decrypt self w = (Raise TypeError, after_decryption self w))
      /\ (forall kvs, v = PDict kvs -> assoc "json_wrapper" kvs = None ->
          DecryptorVersion1.decrypt self w
          = (Raise (KeyError (PStr "json_wrapper")), after_decryption self w))
      /\ (forall kvs x, v = PDict kvs -> assoc "json_wrapper" kvs = Some x ->
          DecryptorVersion1.decrypt self w = (Return x, after_decryption self w))).
Proof.
  split; [|split; [|split]].
  - intros plaintext Hc Hp. rewrite V1_decrypt_run. f_equal.
    unfold V1_outcome. rewrite Hc.
    destruct Hp as [-> | (text & -> & ->)]; reflexivity.
  - intros msg w'. rewrite V1_decrypt_run. unfold V1_outcome, parse_fails.
    destruct (cipher_decrypt _ _ _) as [plaintext|]; [|discriminate].
    destruct (decode_utf8 plaintext) as [text|] eqn:Hd.
    + destruct (json_loads text) as [v|] eqn:Hl.
      * destruct v; try discriminate. by destruct (assoc "json_wrapper" kvs).
      * intros [= <- _]. split; [done|]. exists plaintext. split; [done|].
        right. by exists text.
    + intros [= <- _]. split; [done|]. exists plaintext. split; [done|]. by left.
  - intros Hc. rewrite V1_decrypt_run. unfold V1_outcome. by rewrite Hc.
  - intros plaintext text v Hc Hd Hl. rewrite V1_decrypt_run. unfold V1_outcome.
    rewrite Hc, Hd, Hl. split; [|split].
    + intros Hv. destruct v; try reflexivity. by destruct (Hv kvs).
    + intros kvs -> Hw. by rewrite Hw.
    + intros kvs x -> Hw. by rewrite Hw.
Qed.

(** ** Round trips *)

(** The cipher adapter decrypts what it encrypted. *)
Class CipherLaws `{Cipher} : Prop :=
  cipher_roundtrip : forall key iv plaintext,
    cipher_decrypt key iv (cipher_encrypt key iv plaintext) = Some plaintext.

(** A value is JSON-representable when its wrapped form survives
    [dumps], the trip through bytes, and [loads]. *)
Definition json_representable `{Json} (x : value) : Prop :=
  decode_utf8 (encode_utf8 (json_dumps (json_wrapper x))) = Some (json_dumps (json_wrapper x))
  /\ json_loads (json_dumps (json_wrapper x)) = Some (json_wrapper x).

(** Encrypt with one version, then decrypt the envelope. *)
Definition roundtrip `{Cipher, Json} (key : string) (x version : value) : M value :=
  d ← encrypt_field key x version;
  decrypt_field key d.

Lemma envelope_lookup (version : Z) (ct iv : bytes) :
  let d := EncryptorVersion1.envelope version ct iv in
  d !! "version" = Some (PInt version)
  /\ d !! "encrypted_data" = Some (PStr (b64_text ct))
  /\ d !! "iv" = Some (PStr (b64_text iv))
  /\ d !! "hmac" = None.
Proof. unfold EncryptorVersion1.envelope. cbn zeta. by simplify_map_eq. Qed.

Lemma DecryptorVersion1_init_run (key : string) (ct iv : bytes) (w : world) :
  let k := SHA256.digest (encode_utf8 key) in
  DecryptorVersion1.init key (PStr (b64_text ct)) (PStr (b64_text iv)) w
  = (Return (DecryptorVersion1.Make k ct iv (AES256Cipher.Make k iv)),
     extended w [EvDigest (encode_utf8 key); EvCipherNew k iv]).
Proof.
  cbn zeta. unfold DecryptorVersion1.init.
  rewrite (bind_return _ _ _ _ _ (sha256_digest_run _ w)).
  rewrite !standard_b64decode_b64_text. unfold extended, logged. run_M.
  by rewrite <- app_assoc.
Qed.

(** What the V1 decryptor makes of the ciphertext of a representable
    value, under the key and IV it was encrypted with. *)
Lemma V1_outcome_of_encryption `{Cipher, Json} `{!CipherLaws} (k iv : bytes) (x : value) :
  json_representable x ->
  V1_outcome (DecryptorVersion1.Make k
                (cipher_encrypt k iv (encode_utf8 (json_dumps (json_wrapper x)))) iv
                (AES256Cipher.Make k iv))
  = Return x.
Proof.
  intros [Hutf Hjson]. unfold V1_outcome.
  cbn [DecryptorVersion1.decryptor DecryptorVersion1.data AES256Cipher.key AES256Cipher.iv].
  rewrite cipher_roundtrip, Hutf, Hjson. unfold json_wrapper. cbn [assoc].
  by rewrite String.eqb_refl.
Qed.

(** ** What [to_dict] and the field hooks produce *)

(** The envelope of a V2 encryptor: the V1 fields with version 2, and the
    tag. *)
Definition V2_envelope `{Cipher, Json} (s : EncryptorVersion2.t) : gmap string value :=
  <["hmac" := PStr (b64_text (V2_tag s))]>
    (EncryptorVersion1.envelope 2 (V1_ciphertext (EncryptorVersion2.base s))
                                (EncryptorVersion1.iv (EncryptorVersion2.base s))).

Definition envelope_of `{Cipher, Json} (e : encryptor) : gmap string value :=
  match e with
  | EncV1 s => EncryptorVersion1.envelope 1 (V1_ciphertext s) (EncryptorVersion1.iv s)
  | EncV2 s => V2_envelope s
  end.

Lemma V1_to_dict_run `{Cipher, Json} (s : EncryptorVersion1.t) (w : world) :
  EncryptorVersion1.to_dict s w
  = (Return (envelope_of (EncV1 s), V1_settle s), extended w (V1_encrypt_events s)).
Proof.
  unfold EncryptorVersion1.to_dict.
  rewrite (bind_return _ _ _ _ _ (V1_encrypt_run s w)).
  by destruct s.
Qed.

Lemma V2_to_dict_run `{Cipher, Json} (s : EncryptorVersion2.t) (w : world) :
  EncryptorVersion2.to_dict s w
  = (Return (envelope_of (EncV2 s),
             EncryptorVersion2.Make (V1_settle (EncryptorVersion2.base s)) (Some (V2_tag s))),
     extended w (encrypt_events (EncV2 s))).
Proof.
  unfold EncryptorVersion2.to_dict.
  rewrite (bind_return _ _ _ _ _ (V2_encrypt_run s w)).
  by destruct s as [[] ?].
Qed.

Lemma to_dict_run `{Cipher, Json} (e : encryptor) (w : world) :
  encryptor_to_dict e w = (Return (envelope_of e, settle e), extended w (encrypt_events e)).
Proof.
  destruct e as [s|s]; unfold encryptor_to_dict.
  - by rewrite (bind_return _ _ _ _ _ (V1_to_dict_run s w)).
  - by rewrite (bind_return _ _ _ _ _ (V2_to_dict_run s w)).
Qed.

Lemma encrypt_field_run `{Cipher, Json} (key : string) (x version : value) (w w1 : world)
      (e : encryptor) :
  create_encryptor key x version w = (Return e, w1) ->
  encrypt_field key x version w = (Return (envelope_of e), extended w1 (encrypt_events e)).
Proof.
  intros He. unfold encrypt_field. rewrite (bind_return _ _ _ _ _ He).
  by rewrite (bind_return _ _ _ _ _ (to_dict_run e w1)).
Qed.

(** ** Building a decryptor from an envelope *)

(** The text [s] is ASCII and decodes to [b]. *)
Definition b64_decodes (s : string) (b : bytes) : Prop :=
  is_ascii s = true /\ Base64.decode (encode_utf8 s) = Some b.

(** The V1 decryptor for a passphrase, a ciphertext and an IV. *)
Definition V1_decryptor (key : string) (ct iv : bytes) : DecryptorVersion1.t :=
  DecryptorVersion1.Make (SHA256.digest (encode_utf8 key)) ct iv
                         (AES256Cipher.Make (SHA256.digest (encode_utf8 key)) iv).

(** The library calls of a decryptor's constructor. *)
Definition decryptor_events (key : string) (iv : bytes) : list event :=
  [EvDigest (encode_utf8 key); EvCipherNew (SHA256.digest (encode_utf8 key)) iv].

Lemma b64_decodes_b64_text (b : bytes) : b64_decodes (b64_text b) b.
Proof.
  unfold b64_decodes, b64_text, is_ascii. rewrite encode_utf8_str_of_bytes.
  split; [apply Base64Facts.encode_ascii | apply Base64Facts.decode_encode].
Qed.

Lemma standard_b64decode_run (s : string) (b : bytes) (w : world) :
  b64_decodes s b -> standard_b64decode (PStr s) w = (Return b, w).
Proof. intros [Ha Hd]. unfold standard_b64decode. by rewrite Ha, Hd. Qed.

Lemma DecryptorVersion1_init_texts (key ed iv : string) (ct ivb : bytes) (w : world) :
  b64_decodes ed ct -> b64_decodes iv ivb ->
  DecryptorVersion1.init key (PStr ed) (PStr iv) w
  = (Return (V1_decryptor key ct ivb), extended w (decryptor_events key ivb)).
Proof.
  intros Hed Hiv. unfold DecryptorVersion1.init.
  rewrite (bind_return _ _ _ _ _ (sha256_digest_run _ w)).
  rewrite (bind_return _ _ _ _ _ (standard_b64decode_run _ _ _ Hed)).
  rewrite (bind_return _ _ _ _ _ (standard_b64decode_run _ _ _ Hiv)).
  unfold extended, logged, decryptor_events, V1_decryptor. run_M.
  by rewrite <- app_assoc.
Qed.

Lemma DecryptorVersion2_init_texts (key ed iv h : string) (ct ivb tag : bytes) (w : world) :
  b64_decodes ed ct -> b64_decodes iv ivb -> b64_decodes h tag ->
  DecryptorVersion2.init key (PStr ed) (PStr iv) (PStr h) w
  = (Return (DecryptorVersion2.Make (V1_decryptor key ct ivb) tag ed),
     extended w (decryptor_events key ivb)).
Proof.
  intros Hed Hiv Hh. unfold DecryptorVersion2.init.
  rewrite (bind_return _ _ _ _ _ (DecryptorVersion1_init_texts key ed iv ct ivb w Hed Hiv)).
  by rewrite (bind_return _ _ _ _ _ (standard_b64decode_run _ _ _ Hh)).
Qed.

Lemma create_decryptor_V1_run (key ed iv : string) (data : gmap string value)
      (ct ivb : bytes) (w : world) :
  data !! "version" = None \/ data !! "version" = Some (PInt 1) ->
  data !! "encrypted_data" = Some (PStr ed) ->
  data !! "iv" = Some (PStr iv) ->
  b64_decodes ed ct -> b64_decodes iv ivb ->
  create_decryptor key data w
  = (Return (Some (DecV1 (V1_decryptor key ct ivb))), extended w (decryptor_events key ivb)).
Proof.
  intros Hv Hed Hiv Hct Hivb.
  assert (create_decryptor key data = create_V1 key data) as ->.
  { destruct Hv as [Hv|Hv]; [|by apply create_decryptor_int_1].
    unfold create_decryptor, get_decryption_version. by rewrite Hv. }
  unfold create_V1, getitem. rewrite Hed, Hiv.
  change ((DecryptorVersion1.init key (PStr ed) (PStr iv)
           ≫= (fun d => mret (Some (DecV1 d)))) w
          = (Return (Some (DecV1 (V1_decryptor key ct ivb))),
             extended w (decryptor_events key ivb))).
  by rewrite (bind_return _ _ _ _ _ (DecryptorVersion1_init_texts key ed iv ct ivb w Hct Hivb)).
Qed.

Lemma create_decryptor_V2_run (key ed iv h : string) (data : gmap string value)
      (ct ivb tag : bytes) (w : world) :
  data !! "version" = Some (PInt 2) ->
  data !! "encrypted_data" = Some (PStr ed) ->
  data !! "iv" = Some (PStr iv) ->
  data !! "hmac" = Some (PStr h) ->
  b64_decodes ed ct -> b64_decodes iv ivb -> b64_decodes h tag ->
  create_decryptor key data w
  = (Return (Some (DecV2 (DecryptorVersion2.Make (V1_decryptor key ct ivb) tag ed))),
     extended w (decryptor_events key ivb)).
Proof.
  intros Hv Hed Hiv Hh Hct Hivb Htag.
  rewrite (create_decryptor_int_2 _ _ Hv).
  unfold create_V2, getitem. rewrite Hed, Hiv, Hh.
  change ((DecryptorVersion2.init key (PStr ed) (PStr iv) (PStr h)
           ≫= (fun d => mret (Some (DecV2 d)))) w
          = (Return (Some (DecV2 (DecryptorVersion2.Make (V1_decryptor key ct ivb) tag ed))),
             extended w (decryptor_events key ivb))).
  by rewrite (bind_return _ _ _ _ _
                (DecryptorVersion2_init_texts key ed iv h ct ivb tag w Hct Hivb Htag)).
Qed.

Lemma decrypt_field_V1_run `{Cipher, Json} (key ed iv : string) (data : gmap string value)
      (ct ivb : bytes) (w : world) :
  data !! "version" = None \/ data !! "version" = Some (PInt 1) ->
  data !! "encrypted_data" = Some (PStr ed) ->
  data !! "iv" = Some (PStr iv) ->
  b64_decodes ed ct -> b64_decodes iv ivb ->
  decrypt_field key data w
  = (V1_outcome (V1_decryptor key ct ivb),
     after_decryption (V1_decryptor key ct ivb) (extended w (decryptor_events key ivb))).
Proof.
  intros Hv Hed Hiv Hct Hivb. unfold decrypt_field.
  rewrite (bind_return _ _ _ _ _
             (create_decryptor_V1_run key ed iv data ct ivb w Hv Hed Hiv Hct Hivb)).
  cbv beta iota delta [decryptor_decrypt]. apply V1_decrypt_run.
Qed.

Lemma decrypt_field_V2_run `{Cipher, Json} (key ed iv h : string) (data : gmap string value)
      (ct ivb tag : bytes) (w : world) :
  data !! "version" = Some (PInt 2) ->
  data !! "encrypted_data" = Some (PStr ed) ->
  data !! "iv" = Some (PStr iv) ->
  data !! "hmac" = Some (PStr h) ->
  b64_decodes ed ct -> b64_decodes iv ivb -> b64_decodes h tag ->
  decrypt_field key data w
  = DecryptorVersion2.decrypt (DecryptorVersion2.Make (V1_decryptor key ct ivb) tag ed)
                              (extended w (decryptor_events key ivb)).
Proof.
  intros Hv Hed Hiv Hh Hct Hivb Htag. unfold decrypt_field.
  by rewrite (bind_return _ _ _ _ _
                (create_decryptor_V2_run key ed iv h data ct ivb tag w
                   Hv Hed Hiv Hh Hct Hivb Htag)).
Qed.

Lemma V2_envelope_lookup `{Cipher, Json} (s : EncryptorVersion2.t) :
  let d := V2_envelope s in
  d !! "version" = Some (PInt 2)
  /\ d !! "encrypted_data" = Some (PStr (b64_text (V1_ciphertext (EncryptorVersion2.base s))))
  /\ d !! "iv" = Some (PStr (b64_text (EncryptorVersion1.iv (EncryptorVersion2.base s))))
  /\ d !! "hmac" = Some (PStr (b64_text (V2_tag s))).
Proof.
  cbn zeta. unfold V2_envelope.
  destruct (envelope_lookup 2 (V1_ciphertext (EncryptorVersion2.base s))
                            (EncryptorVersion1.iv (EncryptorVersion2.base s)))
    as (Hv & Hed & Hiv & _).
  rewrite !lookup_insert_ne by done. rewrite lookup_insert_eq. done.
Qed.

(** ** Round trips *)

(** The text that the V2 encryptor built from world [w] authenticates. *)
Definition V2_message `{Cipher, Json} (key : string) (x : value) (w : world) : bytes :=
  Base64.encode (cipher_encrypt (SHA256.digest (encode_utf8 key)) (drawn_iv (after_init key w))
                                (encode_utf8 (json_dumps (json_wrapper x)))).

(** The encryptor keys the tag with the passphrase, the decryptor with its
    digest. *)
Definition tags_agree `{Cipher, Json} (key : string) (x : value) (w : world) : Prop :=
  hmac_sha256 (encode_utf8 key) (V2_message key x w)
  = hmac_sha256 (SHA256.digest (encode_utf8 key)) (V2_message key x w).

Lemma roundtrip_V1 `{Cipher, Json} `{!CipherLaws} (key : string) (x : value) (w : world) :
  json_representable x ->
  fst (roundtrip key x (PInt 1) w) = Return x.
Proof.
  intros Hx. unfold roundtrip.
  rewrite (bind_return _ _ _ _ _
             (encrypt_field_run key x (PInt 1) w _ _ (create_encryptor_run key x (PInt 1) w))).
  cbv beta iota delta [envelope_of].
  destruct (envelope_lookup 1 (V1_ciphertext (fresh_V1 key x w))
                            (EncryptorVersion1.iv (fresh_V1 key x w)))
    as (Hv & Hed & Hiv & _).
  rewrite (decrypt_field_V1_run key _ _ _ _ _ _ (or_intror Hv) Hed Hiv
             (b64_decodes_b64_text _) (b64_decodes_b64_text _)).
  cbv beta iota delta [fst]. by apply V1_outcome_of_encryption.
Qed.

(** The decryptor that the round trip at version 2 builds. *)
Definition V2_roundtrip_decryptor `{Cipher, Json} (key : string) (x : value) (w : world)
  : DecryptorVersion2.t :=
  DecryptorVersion2.Make
    (V1_decryptor key
       (cipher_encrypt (SHA256.digest (encode_utf8 key)) (drawn_iv (after_init key w))
                       (encode_utf8 (json_dumps (json_wrapper x))))
       (drawn_iv (after_init key w)))
    (hmac_sha256 (encode_utf8 key) (V2_message key x w))
    (str_of_bytes (V2_message key x w)).

Lemma roundtrip_V2_run `{Cipher, Json} (key : string) (x : value) (w : world) :
  exists w2, roundtrip key x (PInt 2) w
             = DecryptorVersion2.decrypt (V2_roundtrip_decryptor key x w) w2.
Proof.
  unfold roundtrip.
  rewrite (bind_return _ _ _ _ _
             (encrypt_field_run key x (PInt 2) w _ _ (create_encryptor_run key x (PInt 2) w))).
  cbv beta iota delta [envelope_of].
  set (s := EncryptorVersion2.Make (fresh_V1 key x (after_init key w)) None).
  destruct (V2_envelope_lookup s) as (Hv & Hed & Hiv & Hh).
  eexists.
  rewrite (decrypt_field_V2_run key _ _ _ _ _ _ _ _ Hv Hed Hiv Hh
             (b64_decodes_b64_text _) (b64_decodes_b64_text _) (b64_decodes_b64_text _)).
  reflexivity.
Qed.

Lemma expected_hmac_roundtrip `{Cipher, Json} (key : string) (x : value) (w : world) :
  expected_hmac (V2_roundtrip_decryptor key x w)
  = hmac_sha256 (SHA256.digest (encode_utf8 key)) (V2_message key x w).
Proof.
  unfold expected_hmac, V2_roundtrip_decryptor, V1_decryptor.
  cbn [DecryptorVersion2.base DecryptorVersion2.encoded_data DecryptorVersion1.key].
  by rewrite encode_utf8_str_of_bytes.
Qed.

Lemma roundtrip_V2_agree `{Cipher, Json} `{!CipherLaws} (key : string) (x : value) (w : world) :
  json_representable x -> tags_agree key x w ->
  fst (roundtrip key x (PInt 2) w) = Return x.
Proof.
  intros Hx Htags. destruct (roundtrip_V2_run key x w) as [w2 ->].
  rewrite V2_decrypt_tag_match.
  - rewrite V1_decrypt_run. cbv beta iota delta [fst].
    unfold V2_roundtrip_decryptor. cbn [DecryptorVersion2.base].
    by apply V1_outcome_of_encryption.
  - rewrite expected_hmac_roundtrip. exact Htags.
Qed.

Lemma roundtrip_V2_disagree `{Cipher, Json} (key : string) (x : value) (w : world) :
  ~ tags_agree key x w ->
  fst (roundtrip key x (PInt 2) w) = Raise (ChefDecryptionError MSG_HMAC_FAILED).
Proof.
  intros Htags. destruct (roundtrip_V2_run key x w) as [w2 ->].
  rewrite V2_decrypt_tag_mismatch; [done | apply hmac_sha256_length |].
  rewrite expected_hmac_roundtrip. exact Htags.
Qed.

(** C1 (what the code does). For a cipher that decrypts what it encrypted
    and a JSON-representable value, the round trip at version 1 returns
    the value for every passphrase.  At version 2 it returns the value
    exactly when the tag keyed with the passphrase (the encryptor's) is
    the tag keyed with the digest of the passphrase (the decryptor's), and
    fails with the HMAC error otherwise; the two tags are the same for
    every passphrase longer than the 64-byte block of the hash. *)
Theorem C1_roundtrip_V2_needs_agreeing_tags
        `{Cipher, Json} `{!CipherLaws} (key : string) (x : value) (w : world) :
  json_representable x ->
  fst (roundtrip key x (PInt 1) w) = Return x
  /\ (tags_agree key x w -> fst (roundtrip key x (PInt 2) w) = Return x)
  /\ (~ tags_agree key x w ->
      fst (roundtrip key x (PInt 2) w) = Raise (ChefDecryptionError MSG_HMAC_FAILED))
  /\ ((block_size < length (encode_utf8 key))%nat -> tags_agree key x w).
Proof.
  intros Hx. split; [by apply roundtrip_V1|].
  split; [by apply roundtrip_V2_agree|].
  split; [apply roundtrip_V2_disagree|].
  intros Hlong. unfold tags_agree. by apply hmac_long_key.
Qed.

(** ** What the tag of a V2 envelope covers *)

(** Bit [j] of byte [i] flipped; out of range nothing changes. *)
Definition flip_bit (i : nat) (j : N) (b : bytes) : bytes :=
  match b !! i with
  | Some c => <[i := byte_of_N (N.lxor (Byte.to_N c) (N.shiftl 1 j))]> b
  | None => b
  end.

(** The envelope with bit [j] of character [i] of a text field flipped. *)
Definition tamper (field : string) (i : nat) (j : N) (data : gmap string value)
  : gmap string value :=
  match data !! field with
  | Some (PStr s) => <[field := PStr (str_of_bytes (flip_bit i j (encode_utf8 s)))]> data
  | _ => data
  end.

(** The tag that the decryptor for passphrase [key] expects for the text
    [ed] of the [encrypted_data] field. *)
Definition expected_tag (key ed : string) : bytes :=
  hmac_sha256 (SHA256.digest (encode_utf8 key)) (encode_utf8 ed).

(** The error of [base64.standard_b64decode] on a field, if any. *)
Definition decode_error (v : value) : option exn :=
  match v with
  | PStr s =>
      if is_ascii s then
        match Base64.decode (encode_utf8 s) with
        | Some _ => None
        | None => Some BinasciiError
        end
      else Some ValueError
  | _ => Some TypeError
  end.

Lemma standard_b64decode_error (v : value) (e : exn) (w : world) :
  decode_error v = Some e -> standard_b64decode v w = (Raise e, w).
Proof.
  unfold decode_error, standard_b64decode.
  destruct v as [| b | z | s | items | kvs]; try by intros [= <-].
  destruct (is_ascii s); [|by intros [= <-]].
  destruct (Base64.decode (encode_utf8 s)); [discriminate | by intros [= <-]].
Qed.

Lemma decode_error_b64_decodes (s : string) (b : bytes) :
  b64_decodes s b -> decode_error (PStr s) = None.
Proof. intros [Ha Hd]. unfold decode_error. by rewrite Ha, Hd. Qed.

Lemma DecryptorVersion1_init_data_error (key : string) (ed iv : value) (e : exn) (w : world) :
  decode_error ed = Some e ->
  DecryptorVersion1.init key ed iv w = (Raise e, logged (EvDigest (encode_utf8 key)) w).
Proof.
  intros He. unfold DecryptorVersion1.init.
  rewrite (bind_return _ _ _ _ _ (sha256_digest_run _ w)).
  by rewrite (bind_raise _ _ _ _ _ (standard_b64decode_error ed e _ He)).
Qed.

Lemma DecryptorVersion1_init_iv_error (key ed : string) (ct : bytes) (iv : value) (e : exn)
      (w : world) :
  b64_decodes ed ct -> decode_error iv = Some e ->
  DecryptorVersion1.init key (PStr ed) iv w = (Raise e, logged (EvDigest (encode_utf8 key)) w).
Proof.
  intros Hed He. unfold DecryptorVersion1.init.
  rewrite (bind_return _ _ _ _ _ (sha256_digest_run _ w)).
  rewrite (bind_return _ _ _ _ _ (standard_b64decode_run _ _ _ Hed)).
  by rewrite (bind_raise _ _ _ _ _ (standard_b64decode_error iv e _ He)).
Qed.

Lemma DecryptorVersion2_init_hmac_error (key ed iv : string) (ct ivb : bytes) (h : value)
      (e : exn) (w : world) :
  b64_decodes ed ct -> b64_decodes iv ivb -> decode_error h = Some e ->
  DecryptorVersion2.init key (PStr ed) (PStr iv) h w
  = (Raise e, extended w (decryptor_events key ivb)).
Proof.
  intros Hed Hiv He. unfold DecryptorVersion2.init.
  rewrite (bind_return _ _ _ _ _ (DecryptorVersion1_init_texts key ed iv ct ivb w Hed Hiv)).
  by rewrite (bind_raise _ _ _ _ _ (standard_b64decode_error h e _ He)).
Qed.

(** A failure of the V2 constructor is the failure of the field hook. *)
Lemma decrypt_field_V2_init_error `{Cipher, Json} (key : string) (data : gmap string value)
      (ed iv h : value) (e : exn) (w w1 : world) :
  data !! "version" = Some (PInt 2) ->
  data !! "encrypted_data" = Some ed ->
  data !! "iv" = Some iv ->
  data !! "hmac" = Some h ->
  DecryptorVersion2.init key ed iv h w = (Raise e, w1) ->
  decrypt_field key data w = (Raise e, w1).
Proof.
  intros Hv Hed Hiv Hh Hinit.
  assert (create_decryptor key data w = (Raise e, w1)) as Hc.
  { rewrite (create_decryptor_int_2 _ _ Hv). unfold create_V2, getitem.
    rewrite Hed, Hiv, Hh.
    change ((DecryptorVersion2.init key ed iv h ≫= (fun d => mret (Some (DecV2 d)))) w
            = (Raise e, w1)).
    by rewrite (bind_raise _ _ _ _ _ Hinit). }
  unfold decrypt_field. by rewrite (bind_raise _ _ _ _ _ Hc).
Qed.

(** The V1 decryption never ends in the HMAC error. *)
Lemma V1_outcome_is_not_the_HMAC_error `{Cipher, Json} (self : DecryptorVersion1.t) :
  V1_outcome self <> Raise (ChefDecryptionError MSG_HMAC_FAILED).
Proof.
  unfold V1_outcome.
  destruct (cipher_decrypt _ _ _) as [plaintext|]; [|discriminate].
  destruct (decode_utf8 plaintext) as [text|]; [|discriminate].
  destruct (json_loads text) as [v|]; [|discriminate].
  destruct v; try discriminate. by destruct (assoc "json_wrapper" kvs).
Qed.

(** C2 (as the code has it). Take a V2 envelope, with the integer version
    2 and its three fields.  When the fields decode, the tag to 32 bytes:
    if the stored tag is not the tag expected for the [encrypted_data]
    text, decryption fails with the HMAC error and the only library calls
    are those of the constructor and the tag computation, so nothing is
    decrypted; if it is, decryption is the V1 decryption of the decoded
    ciphertext under the decoded IV and does not end in the HMAC error,
    whatever the IV is: replacing the [iv] field by any text that decodes
    never gives the HMAC error.  When [encrypted_data], [iv] or [hmac], in
    this order, is the first field that is not base64 text, the
    constructor fails with the error of the decoder and no tag is
    validated. *)
Theorem C2_tag_covers_the_data_text_only
        `{Cipher, Json} (key : string) (data : gmap string value) (edv ivv hv : value)
        (w : world) :
  data !! "version" = Some (PInt 2) ->
  data !! "encrypted_data" = Some edv ->
  data !! "iv" = Some ivv ->
  data !! "hmac" = Some hv ->
  (forall ed iv h ct ivb tag,
      edv = PStr ed -> ivv = PStr iv -> hv = PStr h ->
      b64_decodes ed ct -> b64_decodes iv ivb -> b64_decodes h tag ->
      length tag = 32%nat ->
      (tag <> expected_tag key ed ->
       exists w1,
         decrypt_field key data w = (Raise (ChefDecryptionError MSG_HMAC_FAILED), w1)
         /\ trace w1 = trace w ++ decryptor_events key ivb
                               ++ [EvHmac (SHA256.digest (encode_utf8 key)) (encode_utf8 ed)])
      /\ (tag = expected_tag key ed ->
          fst (decrypt_field key data w) = V1_outcome (V1_decryptor key ct ivb)
          /\ fst (decrypt_field key data w) <> Raise (ChefDecryptionError MSG_HMAC_FAILED)
          /\ forall iv' ivb', b64_decodes iv' ivb' ->
               fst (decrypt_field key (<["iv" := PStr iv']> data) w)
               = V1_outcome (V1_decryptor key ct ivb')
               /\ fst (decrypt_field key (<["iv" := PStr iv']> data) w)
                  <> Raise (ChefDecryptionError MSG_HMAC_FAILED)))
  /\ (forall e, decode_error edv = Some e ->
      decrypt_field key data w = (Raise e, logged (EvDigest (encode_utf8 key)) w))
  /\ (forall e ed ct, edv = PStr ed -> b64_decodes ed ct -> decode_error ivv = Some e ->
      decrypt_field key data w = (Raise e, logged (EvDigest (encode_utf8 key)) w))
  /\ (forall e ed ct iv ivb,
      edv = PStr ed -> b64_decodes ed ct -> ivv = PStr iv -> b64_decodes iv ivb ->
      decode_error hv = Some e ->
      decrypt_field key data w = (Raise e, extended w (decryptor_events key ivb))).
Proof.
  intros Hv Hed Hiv Hh. split; [|split; [|split]].
  - intros ed iv h ct ivb tag -> -> -> Hct Hivb Htag Hlen. split.
    + intros Hne.
      rewrite (decrypt_field_V2_run key ed iv h data ct ivb tag w
                 Hv Hed Hiv Hh Hct Hivb Htag).
      rewrite V2_decrypt_tag_mismatch by done.
      eexists. split; [reflexivity|].
      unfold after_validation, logged, extended. cbn [trace DecryptorVersion2.base
        DecryptorVersion2.encoded_data DecryptorVersion1.key V1_decryptor].
      by rewrite <- app_assoc.
    + intros Heq.
      assert (fst (decrypt_field key data w) = V1_outcome (V1_decryptor key ct ivb)) as Hrun.
      { rewrite (decrypt_field_V2_run key ed iv h data ct ivb tag w
                   Hv Hed Hiv Hh Hct Hivb Htag).
        rewrite V2_decrypt_tag_match by done. by rewrite V1_decrypt_run. }
      split; [exact Hrun|].
      split; [rewrite Hrun; apply V1_outcome_is_not_the_HMAC_error|].
      intros iv' ivb' Hiv'.
      assert (fst (decrypt_field key (<["iv" := PStr iv']> data) w)
              = V1_outcome (V1_decryptor key ct ivb')) as Hrun'.
      { rewrite (decrypt_field_V2_run key ed iv' h (<["iv" := PStr iv']> data) ct ivb' tag w).
        - rewrite V2_decrypt_tag_match by done. by rewrite V1_decrypt_run.
        - by rewrite lookup_insert_ne.
        - by rewrite lookup_insert_ne.
        - apply lookup_insert_eq.
        - by rewrite lookup_insert_ne.
        - done.
        - done.
        - done. }
      split; [exact Hrun'|]. rewrite Hrun'. apply V1_outcome_is_not_the_HMAC_error.
  - intros e He.
    apply (decrypt_field_V2_init_error key data edv ivv hv e w _ Hv Hed Hiv Hh).
    unfold DecryptorVersion2.init.
    by rewrite (bind_raise _ _ _ _ _ (DecryptorVersion1_init_data_error key edv ivv e w He)).
  - intros e ed ct -> Hct He.
    apply (decrypt_field_V2_init_error key data (PStr ed) ivv hv e w _ Hv Hed Hiv Hh).
    unfold DecryptorVersion2.init.
    by rewrite (bind_raise _ _ _ _ _
                  (DecryptorVersion1_init_iv_error key ed ct ivv e w Hct He)).
  - intros e ed ct iv ivb -> Hct -> Hivb He.
    apply (decrypt_field_V2_init_error key data (PStr ed) (PStr iv) hv e w _ Hv Hed Hiv Hh).
    by apply (DecryptorVersion2_init_hmac_error key ed iv ct ivb hv e w).
Qed.

(** ** Which versions the decryption side accepts *)

Definition accepted_versions : list value := [PInt 1; PInt 2; PStr "1"; PStr "2"].

Lemma py_str_int (z n : Z) : py_str (PInt z) = py_str (PInt n) -> z = n.
Proof.
  unfold py_str, py_repr. intros Hs.
  apply (f_equal NilEmpty.int_of_string) in Hs. rewrite !NilEmpty.isi in Hs.
  injection Hs as Hs. apply (f_equal Z.of_int) in Hs. by rewrite !DecimalZ.of_to in Hs.
Qed.

Lemma py_str_accepted (v : value) :
  py_str v ∈ map (fun n => py_str (PInt n)) SUPPORTED_ENCRYPTION_VERSIONS
  <-> v ∈ accepted_versions.
Proof.
  unfold accepted_versions, SUPPORTED_ENCRYPTION_VERSIONS. cbn [map].
  rewrite !elem_of_cons, !elem_of_nil.
  split.
  - intros [Hs | [Hs | []]].
    + destruct v as [| [] | z | s | items | kvs]; try discriminate Hs.
      * apply py_str_int in Hs. subst. tauto.
      * cbn in Hs. subst. tauto.
    + destruct v as [| [] | z | s | items | kvs]; try discriminate Hs.
      * apply py_str_int in Hs. subst. tauto.
      * cbn in Hs. subst. tauto.
  - intros [-> | [-> | [-> | [-> | []]]]]; tauto.
Qed.

Lemma get_decryption_version_cases (data : gmap string value) (v : value) (w : world) :
  data !! "version" = Some v ->
  get_decryption_version data w
  = (if bool_decide (py_str v ∈ map (fun n => py_str (PInt n)) SUPPORTED_ENCRYPTION_VERSIONS)
     then Return v else Raise (ChefUnsupportedEncryptionVersionError v), w).
Proof.
  intros Hv. unfold get_decryption_version. rewrite Hv. by case_bool_decide.
Qed.

(** [get_decryption_version] returns the [version] field unchanged when it
    is the integer or the text 1 or 2, and raises the unsupported-version
    error carrying the field otherwise; it makes no library call. *)
Theorem get_decryption_version_accepts (data : gmap string value) (v : value) (w : world) :
  data !! "version" = Some v ->
  (v ∈ accepted_versions -> get_decryption_version data w = (Return v, w))
  /\ (v ∉ accepted_versions ->
      get_decryption_version data w = (Raise (ChefUnsupportedEncryptionVersionError v), w)).
Proof.
  intros Hv. rewrite (get_decryption_version_cases data v w Hv). split; intros Hacc.
  - by rewrite bool_decide_eq_true_2 by by apply py_str_accepted.
  - by rewrite bool_decide_eq_false_2 by by rewrite py_str_accepted.
Qed.

(** An unsupported [version] is refused before any field is looked up and
    before any library call, whatever else the envelope holds. *)
Theorem unsupported_version_is_refused_first
        `{Cipher, Json} (key : string) (data : gmap string value) (v : value) (w : world) :
  data !! "version" = Some v ->
  v ∉ accepted_versions ->
  create_decryptor key data w = (Raise (ChefUnsupportedEncryptionVersionError v), w)
  /\ decrypt_field key data w = (Raise (ChefUnsupportedEncryptionVersionError v), w).
Proof.
  intros Hv Hacc.
  assert (get_decryption_version data w
          = (Raise (ChefUnsupportedEncryptionVersionError v), w)) as Hg.
  { rewrite (get_decryption_version_cases data v w Hv).
    by rewrite bool_decide_eq_false_2 by by rewrite py_str_accepted. }
  assert (create_decryptor key data w = (Raise (ChefUnsupportedEncryptionVersionError v), w))
    as Hc.
  { unfold create_decryptor. by rewrite (bind_raise _ _ _ _ _ Hg). }
  split; [exact Hc|]. unfold decrypt_field. by rewrite (bind_raise _ _ _ _ _ Hc).
Qed.

Lemma create_V2_returns_V2 (key : string) (data : gmap string value) (w w' : world)
      (r : option decryptor) :
  create_V2 key data w = (Return r, w') -> exists d, r = Some (DecV2 d).
Proof.
  unfold create_V2, getitem, mbind, M_bind.
  destruct (data !! "encrypted_data") as [ed|]; [|discriminate].
  destruct (data !! "iv") as [iv|]; [|discriminate].
  destruct (data !! "hmac") as [h|]; [|discriminate].
  cbn. destruct (DecryptorVersion2.init key ed iv h w) as [[e|d] w1]; [discriminate|].
  cbn. intros [= <- _]. by exists d.
Qed.

Lemma create_decryptor_text (key : string) (data : gmap string value) (s : string) (w : world) :
  s = "1" \/ s = "2" ->
  data !! "version" = Some (PStr s) ->
  create_decryptor key data w = (Return None, w).
Proof.
  intros Hs Hv. unfold create_decryptor.
  rewrite (get_decryption_version_supported data (PStr s) Hv); [done|].
  destruct Hs as [-> | ->]; [apply supported_text_1 | apply supported_text_2].
Qed.

(** [create_decryptor] returns no decryptor only for a [version] field
    holding the text "1" or "2"; it then made no library call. *)
Theorem create_decryptor_returns_None_only_for_text
        (key : string) (data : gmap string value) (w w' : world) :
  create_decryptor key data w = (Return None, w') ->
  w' = w /\ exists s, (s = "1" \/ s = "2") /\ data !! "version" = Some (PStr s).
Proof.
  intros Hrun.
  destruct (data !! "version") as [v|] eqn:Hv.
  - pose proof (get_decryption_version_cases data v w Hv) as Hg.
    destruct (decide (py_str v ∈ map (fun n => py_str (PInt n)) SUPPORTED_ENCRYPTION_VERSIONS))
      as [Hacc|Hacc].
    2: { rewrite bool_decide_eq_false_2 in Hg by done.
         unfold create_decryptor in Hrun. by rewrite (bind_raise _ _ _ _ _ Hg) in Hrun. }
    clear Hg. rewrite py_str_accepted in Hacc.
    + unfold accepted_versions in Hacc. rewrite !elem_of_cons, elem_of_nil in Hacc.
      destruct Hacc as [-> | [-> | [-> | [-> | []]]]].
      * rewrite (create_decryptor_int_1 _ _ Hv) in Hrun.
        by destruct (create_V1_returns_V1 _ _ _ _ _ Hrun).
      * rewrite (create_decryptor_int_2 _ _ Hv) in Hrun.
        by destruct (create_V2_returns_V2 _ _ _ _ _ Hrun).
      * rewrite (create_decryptor_text key data "1" w (or_introl eq_refl) Hv) in Hrun.
        injection Hrun as <-. eauto.
      * rewrite (create_decryptor_text key data "2" w (or_intror eq_refl) Hv) in Hrun.
        injection Hrun as <-. eauto.
  - assert (create_decryptor key data = create_V1 key data) as Hc.
    { unfold create_decryptor, get_decryption_version. by rewrite Hv. }
    rewrite Hc in Hrun. by destruct (create_V1_returns_V1 _ _ _ _ _ Hrun).
Qed.

(** ** The fields that decryption reads *)

(** [create_decryptor] and the field hook read the four fields [version],
    [encrypted_data], [iv] and [hmac] and nothing else: envelopes that
    agree on them are treated alike, so the [cipher] field is never
    consulted. *)
Theorem decryption_reads_four_fields
        (key : string) (data data' : gmap string value) :
  (forall k, k ∈ ["version"; "encrypted_data"; "iv"; "hmac"] -> data !! k = data' !! k) ->
  create_decryptor key data = create_decryptor key data'
  /\ (forall (C : Cipher) (J : Json), decrypt_field key data = decrypt_field key data')
  /\ (forall c, create_decryptor key (<["cipher" := c]> data') = create_decryptor key data).
Proof.
  intros Hagree.
  assert (forall d d' : gmap string value,
             (forall k, k ∈ ["version"; "encrypted_data"; "iv"; "hmac"] -> d !! k = d' !! k) ->
             create_decryptor key d = create_decryptor key d') as Hframe.
  { intros d d' Hd.
    assert (d !! "version" = d' !! "version") as Hv by (apply Hd; set_solver).
    assert (d !! "encrypted_data" = d' !! "encrypted_data") as Hed by (apply Hd; set_solver).
    assert (d !! "iv" = d' !! "iv") as Hiv by (apply Hd; set_solver).
    assert (d !! "hmac" = d' !! "hmac") as Hh by (apply Hd; set_solver).
    unfold create_decryptor, get_decryption_version, getitem.
    by rewrite Hv, Hed, Hiv, Hh. }
  split; [by apply Hframe|]. split.
  - intros C J. unfold decrypt_field. by rewrite (Hframe data data' Hagree).
  - intros c. apply Hframe. intros k Hk. rewrite lookup_insert_ne; [by rewrite Hagree|].
    intros <-. rewrite !elem_of_cons, elem_of_nil in Hk.
    by destruct Hk as [? | [? | [? | [? | ?]]]].
Qed.

(** With version 1, given or by default, the fields are looked up in the
    order [encrypted_data], [iv]; the first one missing is reported by a
    [KeyError], before the passphrase is hashed. *)
Theorem V1_missing_field_raises_KeyError
        (key : string) (data : gmap string value) (w : world) :
  data !! "version" = None \/ data !! "version" = Some (PInt 1) ->
  (data !! "encrypted_data" = None ->
   create_decryptor key data w = (Raise (KeyError (PStr "encrypted_data")), w))
  /\ (is_Some (data !! "encrypted_data") -> data !! "iv" = None ->
      create_decryptor key data w = (Raise (KeyError (PStr "iv")), w)).
Proof.
  intros Hv.
  assert (create_decryptor key data = create_V1 key data) as ->.
  { destruct Hv as [Hv|Hv]; [|by apply create_decryptor_int_1].
    unfold create_decryptor, get_decryption_version. by rewrite Hv. }
  unfold create_V1, getitem. split.
  - intros ->. reflexivity.
  - intros [ed ->] ->. reflexivity.
Qed.

(** ** The tag comparison on tags of the right length *)

(** For a stored tag of 32 bytes [_validate_hmac] computes the expected
    tag once and returns [True] exactly when the stored tag is equal to
    it. *)
Theorem validate_hmac_accepts_exactly_the_expected_tag
        (self : DecryptorVersion2.t) (w : world) :
  length (DecryptorVersion2.hmac self) = 32%nat ->
  (DecryptorVersion2.hmac self = expected_hmac self ->
   DecryptorVersion2._validate_hmac self w = (Return true, after_validation self w))
  /\ (DecryptorVersion2.hmac self <> expected_hmac self ->
      DecryptorVersion2._validate_hmac self w = (Return false, after_validation self w)).
Proof.
  intros Hlen. destruct (validate_hmac_32 self w Hlen) as (ok & Hrun & Hok).
  rewrite Hrun. split; intros Htag.
  - apply Hok in Htag. by subst.
  - destruct ok; [|done]. by destruct Htag, Hok as [-> _].
Qed.

(** ** Decrypting a V2 envelope as V1 *)

(** Tag events among the events. *)
Definition tag_events (l : list event) : list event := List.filter is_tag l.

(** The envelope that [__setitem__] builds at version 2, with its
    [version] field removed or set to 1, decrypts to the value for every
    passphrase, without the tag being validated: the trace of the
    decryption holds no tag computation. *)
Theorem V2_envelope_decrypts_as_V1
        `{Cipher, Json} `{!CipherLaws} (key : string) (x : value) (w w1 w' : world)
        (d : gmap string value) :
  json_representable x ->
  encrypt_field key x (PInt 2) w = (Return d, w1) ->
  d !! "version" = Some (PInt 2)
  /\ (forall d', d' = delete "version" d \/ d' = <["version" := PInt 1]> d ->
      fst (decrypt_field key d' w') = Return x
      /\ tag_events (trace (snd (decrypt_field key d' w'))) = tag_events (trace w')).
Proof.
  intros Hx Henc.
  rewrite (encrypt_field_run key x (PInt 2) w _ _ (create_encryptor_run key x (PInt 2) w))
    in Henc.
  cbv beta iota delta [envelope_of] in Henc. injection Henc as <- _.
  set (s := EncryptorVersion2.Make (fresh_V1 key x (after_init key w)) None).
  destruct (V2_envelope_lookup s) as (Hv & Hed & Hiv & Hh).
  split; [exact Hv|].
  intros d' Hd'.
  assert (d' !! "version" = None \/ d' !! "version" = Some (PInt 1)) as Hv'.
  { destruct Hd' as [-> | ->]; [left; apply lookup_delete_eq | right; apply lookup_insert_eq]. }
  assert (d' !! "encrypted_data" = V2_envelope s !! "encrypted_data") as Hed'.
  { destruct Hd' as [-> | ->]; [by rewrite lookup_delete_ne | by rewrite lookup_insert_ne]. }
  assert (d' !! "iv" = V2_envelope s !! "iv") as Hiv'.
  { destruct Hd' as [-> | ->]; [by rewrite lookup_delete_ne | by rewrite lookup_insert_ne]. }
  rewrite Hed in Hed'. rewrite Hiv in Hiv'.
  rewrite (decrypt_field_V1_run key _ _ d' _ _ w' Hv' Hed' Hiv'
             (b64_decodes_b64_text _) (b64_decodes_b64_text _)).
  cbv beta iota delta [fst snd]. split.
  - by apply V1_outcome_of_encryption.
  - unfold after_decryption, logged, extended, decryptor_events, tag_events.
    cbn [trace]. rewrite <- app_assoc, List.filter_app. cbn [List.filter app is_tag].
    by rewrite app_nil_r.
Qed.

(** ** The envelope that [to_dict] returns *)

Definition envelope_version (e : encryptor) : Z :=
  match e with
  | EncV1 _ => 1
  | EncV2 _ => 2
  end.

Lemma envelope_keys (version : Z) (ct iv : bytes) (k : string) (v : value) :
  EncryptorVersion1.envelope version ct iv !! k = Some v ->
  k ∈ ["encrypted_data"; "iv"; "version"; "cipher"].
Proof.
  unfold EncryptorVersion1.envelope. rewrite !lookup_insert_Some, lookup_empty.
  rewrite !elem_of_cons.
  intros [[<- _] | [_ [[<- _] | [_ [[<- _] | [_ [[<- _] | [_ ?]]]]]]]]; tauto || done.
Qed.

(** [to_dict] returns on every encryptor.  Its dict holds the ciphertext
    and the IV as base64 text, the version of the class and the cipher
    name; a V2 encryptor adds the tag and a V1 encryptor has no [hmac]
    key; there is no other key. *)
Theorem to_dict_fields `{Cipher, Json} (e : encryptor) (w : world) :
  exists d e' w',
    encryptor_to_dict e w = (Return (d, e'), w')
    /\ d !! "encrypted_data" = Some (PStr (b64_text (ciphertext e)))
    /\ d !! "iv" = Some (PStr (b64_text (encryptor_iv e)))
    /\ d !! "version" = Some (PInt (envelope_version e))
    /\ d !! "cipher" = Some (PStr "aes-256-cbc")
    /\ d !! "hmac" = match e with
                     | EncV1 _ => None
                     | EncV2 s => Some (PStr (b64_text (V2_tag s)))
                     end
    /\ (forall k v, d !! k = Some v ->
         k ∈ ["encrypted_data"; "iv"; "version"; "cipher"; "hmac"]).
Proof.
  exists (envelope_of e), (settle e), (extended w (encrypt_events e)).
  split; [apply to_dict_run|].
  destruct e as [s|s]; cbn [envelope_of ciphertext encryptor_iv envelope_version].
  - destruct (envelope_lookup 1 (V1_ciphertext s) (EncryptorVersion1.iv s))
      as (Hv & Hed & Hiv & Hh).
    do 5 (split; [first [done | by unfold EncryptorVersion1.envelope; simplify_map_eq]|]).
    intros k v Hk. apply envelope_keys in Hk. revert Hk. rewrite !elem_of_cons. tauto.
  - destruct (V2_envelope_lookup s) as (Hv & Hed & Hiv & Hh).
    do 5 (split; [first [done | by unfold V2_envelope, EncryptorVersion1.envelope;
                                   simplify_map_eq]|]).
    intros k v. unfold V2_envelope. rewrite lookup_insert_Some.
    intros [[<- _] | [_ Hk]].
    + rewrite !elem_of_cons. tauto.
    + apply envelope_keys in Hk. revert Hk. rewrite !elem_of_cons. tauto.
Qed.

(** A second [to_dict] on the same object returns the same dict and makes
    no library call, and so does an [encrypt] after it; the IV of the
    object is the one it was built with. *)
Theorem to_dict_is_repeatable `{Cipher, Json} (e : encryptor) (w : world) :
  exists d e' w',
    encryptor_to_dict e w = (Return (d, e'), w')
    /\ encryptor_to_dict e' w' = (Return (d, e'), w')
    /\ encryptor_encrypt e' w' = (Return (ciphertext e, e'), w')
    /\ encryptor_iv e' = encryptor_iv e.
Proof.
  exists (envelope_of e), (settle e), (extended w (encrypt_events e)).
  split; [apply to_dict_run|].
  destruct (settle_settled e) as (Hct & Hss & Hev & Hiv).
  split; [|split; [apply settled_encrypt | exact Hiv]].
  rewrite to_dict_run, Hss, Hev, extended_nil.
  by destruct e as [[pk k d iv c [ct|]]|[[pk k d iv c [ct|]] [h|]]].
Qed.

(** The decryptor built from the dict of an encryptor, under any
    passphrase, holds the ciphertext and the IV of the encryptor and, at
    version 2, its tag and the text of the ciphertext. *)
Theorem decryptor_of_to_dict `{Cipher, Json} (e : encryptor) (key' : string) (w w' : world) :
  exists d e' w1,
    encryptor_to_dict e w = (Return (d, e'), w1)
    /\ create_decryptor key' d w'
       = (Return (Some match e with
                       | EncV1 _ => DecV1 (V1_decryptor key' (ciphertext e) (encryptor_iv e))
                       | EncV2 s =>
                           DecV2 (DecryptorVersion2.Make
                                    (V1_decryptor key' (ciphertext e) (encryptor_iv e))
                                    (V2_tag s) (b64_text (ciphertext e)))
                       end),
          extended w' (decryptor_events key' (encryptor_iv e))).
Proof.
  exists (envelope_of e), (settle e), (extended w (encrypt_events e)).
  split; [apply to_dict_run|].
  destruct e as [s|s]; cbn [envelope_of ciphertext encryptor_iv].
  - destruct (envelope_lookup 1 (V1_ciphertext s) (EncryptorVersion1.iv s))
      as (Hv & Hed & Hiv & _).
    apply (create_decryptor_V1_run key' _ _ _ _ _ w' (or_intror Hv) Hed Hiv
             (b64_decodes_b64_text _) (b64_decodes_b64_text _)).
  - destruct (V2_envelope_lookup s) as (Hv & Hed & Hiv & Hh).
    apply (create_decryptor_V2_run key' _ _ _ _ _ _ _ w' Hv Hed Hiv Hh
             (b64_decodes_b64_text _) (b64_decodes_b64_text _) (b64_decodes_b64_text _)).
Qed.

(** ** The constructor of an encryptor *)

Definition is_hex_digit (c : byte) : bool := in_range 48 57 c || in_range 97 102 c.

Lemma hexlify_length (b : bytes) : length (hexlify b) = (2 * length b)%nat.
Proof.
  unfold hexlify. induction b as [|x b IH]; [done|].
  cbn [flat_map app length]. rewrite IH. lia.
Qed.

Lemma hexlify_digits (b : bytes) : forallb is_hex_digit (hexlify b) = true.
Proof.
  unfold hexlify. induction b as [|x b IH]; [done|].
  cbn [flat_map app forallb]. rewrite IH, !andb_true_r.
  revert x. apply (forall_byte (fun x =>
    is_hex_digit (hex_digit (Byte.to_N x / 16))
    && is_hex_digit (hex_digit (Byte.to_N x mod 16)))).
  vm_compute. reflexivity.
Qed.

(** A new encryptor holds the passphrase, its SHA-256 digest as the key
    (32 bytes), the data, no ciphertext, and an IV of [2 * (n / 2)]
    lowercase hex digits made of [n / 2] bytes read from the entropy
    source, where [n] is [EVP_MAX_IV_LENGTH]; its cipher is built from
    that key and that IV. *)
Theorem new_encryptor_state `{Cipher} (key : string) (data : value) (w : world) :
  exists s w',
    EncryptorVersion1.init key data w = (Return s, w')
    /\ EncryptorVersion1.plain_key s = encode_utf8 key
    /\ EncryptorVersion1.key s = SHA256.digest (encode_utf8 key)
    /\ length (EncryptorVersion1.key s) = 32%nat
    /\ EncryptorVersion1.data s = data
    /\ EncryptorVersion1.encrypted_data s = None
    /\ EncryptorVersion1.iv s = hexlify (map (entropy w) (seq (cursor w) (EVP_MAX_IV_LENGTH / 2)))
    /\ length (EncryptorVersion1.iv s) = (2 * (EVP_MAX_IV_LENGTH / 2))%nat
    /\ forallb is_hex_digit (EncryptorVersion1.iv s) = true
    /\ EncryptorVersion1.encryptor s
       = AES256Cipher.Make (EncryptorVersion1.key s) (EncryptorVersion1.iv s)
    /\ cursor w' = (cursor w + EVP_MAX_IV_LENGTH / 2)%nat
    /\ entropy w' = entropy w.
Proof.
  exists (fresh_V1 key data w), (after_init key w).
  split; [apply EncryptorVersion1_init_run|].
  unfold fresh_V1, drawn_iv, after_init.
  cbn [EncryptorVersion1.plain_key EncryptorVersion1.key EncryptorVersion1.data
       EncryptorVersion1.encrypted_data EncryptorVersion1.iv EncryptorVersion1.encryptor
       cursor entropy].
  do 3 (split; [reflexivity|]). split; [reflexivity|]. split; [reflexivity|].
  split; [reflexivity|].
  split; [by rewrite hexlify_length, length_map, length_seq|].
  split; [apply hexlify_digits|]. done.
Qed.

(** ** Fields that do not decode *)

(** An [encrypted_data] field that is not base64 text makes the
    constructor fail with the decoder's error, at either version, once
    the passphrase was hashed: no cipher is built, no tag is validated
    and nothing is decrypted. *)
Theorem undecodable_data_fails_in_constructor
        `{Cipher, Json} (key : string) (data : gmap string value) (ed iv : value)
        (e : exn) (w : world) :
  data !! "version" = None \/ data !! "version" = Some (PInt 1)
  \/ (data !! "version" = Some (PInt 2) /\ is_Some (data !! "hmac")) ->
  data !! "encrypted_data" = Some ed ->
  data !! "iv" = Some iv ->
  decode_error ed = Some e ->
  decrypt_field key data w = (Raise e, logged (EvDigest (encode_utf8 key)) w).
Proof.
  intros Hv Hed Hiv He.
  assert (DecryptorVersion1.init key ed iv w
          = (Raise e, logged (EvDigest (encode_utf8 key)) w)) as Hinit.
  { unfold DecryptorVersion1.init.
    rewrite (bind_return _ _ _ _ _ (sha256_digest_run _ w)).
    by rewrite (bind_raise _ _ _ _ _ (standard_b64decode_error ed e _ He)). }
  assert (create_decryptor key data w = (Raise e, logged (EvDigest (encode_utf8 key)) w))
    as Hc.
  { destruct Hv as [Hv | [Hv | [Hv [h Hh]]]].
    - unfold create_decryptor, get_decryption_version. rewrite Hv.
      change ((create_V1 key data) w = (Raise e, logged (EvDigest (encode_utf8 key)) w)).
      unfold create_V1, getitem. rewrite Hed, Hiv.
      change ((DecryptorVersion1.init key ed iv ≫= (fun d => mret (Some (DecV1 d)))) w
              = (Raise e, logged (EvDigest (encode_utf8 key)) w)).
      by rewrite (bind_raise _ _ _ _ _ Hinit).
    - rewrite (create_decryptor_int_1 _ _ Hv). unfold create_V1, getitem. rewrite Hed, Hiv.
      change ((DecryptorVersion1.init key ed iv ≫= (fun d => mret (Some (DecV1 d)))) w
              = (Raise e, logged (EvDigest (encode_utf8 key)) w)).
      by rewrite (bind_raise _ _ _ _ _ Hinit).
    - rewrite (create_decryptor_int_2 _ _ Hv). unfold create_V2, getitem.
      rewrite Hed, Hiv, Hh.
      change ((DecryptorVersion2.init key ed iv h ≫= (fun d => mret (Some (DecV2 d)))) w
              = (Raise e, logged (EvDigest (encode_utf8 key)) w)).
      assert (DecryptorVersion2.init key ed iv h w
              = (Raise e, logged (EvDigest (encode_utf8 key)) w)) as Hinit2.
      { unfold DecryptorVersion2.init. by rewrite (bind_raise _ _ _ _ _ Hinit). }
      by rewrite (bind_raise _ _ _ _ _ Hinit2). }
  unfold decrypt_field. by rewrite (bind_raise _ _ _ _ _ Hc).
Qed.

(** ** The item hooks *)

Section ItemHooks.

Import EncryptedDataBagItem.

(** The [id] of an item is stored and read in the clear: setting it makes
    no library call and changes no other entry, and reading it returns
    what was set. *)
Theorem id_is_kept_in_the_clear
        `{Cipher, Json} (self : EncryptedDataBagItem.t) (v : value) (w : world) :
  exists self',
    __setitem__ self "id" v w = (Return self', w)
    /\ raw_data self' !! "id" = Some v
    /\ __getitem__ self' "id" w = (Return v, w)
    /\ api self' = api self
    /\ (forall k, k <> "id" -> raw_data self' !! k = raw_data self !! k).
Proof.
  exists (EncryptedDataBagItem.Make (api self) (<["id" := v]> (raw_data self))).
  split; [reflexivity|].
  cbn [raw_data api]. split; [apply lookup_insert_eq|].
  split.
  - unfold __getitem__, getitem. cbn [String.eqb Ascii.eqb Bool.eqb raw_data].
    by rewrite lookup_insert_eq.
  - split; [reflexivity|]. intros k Hk. by rewrite lookup_insert_ne.
Qed.

Lemma roundtrip_supported `{Cipher, Json} `{!CipherLaws} (key : string) (x version : value)
      (w : world) :
  json_representable x ->
  version = PInt 1 \/ (version = PInt 2 /\ (block_size < length (encode_utf8 key))%nat) ->
  fst (roundtrip key x version w) = Return x.
Proof.
  intros Hx [-> | [-> Hlong]].
  - by apply roundtrip_V1.
  - apply roundtrip_V2_agree; [done|]. unfold tags_agree. by apply hmac_long_key.
Qed.

Lemma encrypt_field_returns `{Cipher, Json} (key : string) (x version : value) (w : world) :
  version = PInt 1 \/ version = PInt 2 ->
  exists d w1, encrypt_field key x version w = (Return d, w1).
Proof.
  intros [-> | ->]; eexists _, _.
  - apply (encrypt_field_run key x (PInt 1) w _ _ (create_encryptor_run key x (PInt 1) w)).
  - apply (encrypt_field_run key x (PInt 2) w _ _ (create_encryptor_run key x (PInt 2) w)).
Qed.

(** Setting a field other than [id] and reading it back returns the value
    that was set, at version 1 for every passphrase and at version 2 for a
    passphrase longer than 64 bytes; the entry stored is a dict and no
    other entry changes. *)
Theorem setitem_then_getitem
        `{Cipher, Json} `{!CipherLaws} (self : EncryptedDataBagItem.t) (key : string)
        (x : value) (w : world) :
  key <> "id" ->
  json_representable x ->
  encryption_version (api self) = PInt 1
  \/ (encryption_version (api self) = PInt 2
      /\ (block_size < length (encode_utf8 (encryption_key (api self))))%nat) ->
  exists self' w1,
    __setitem__ self key x w = (Return self', w1)
    /\ fst (__getitem__ self' key w1) = Return x
    /\ (exists kvs, raw_data self' !! key = Some (PDict kvs))
    /\ api self' = api self
    /\ (forall k, k <> key -> raw_data self' !! k = raw_data self !! k).
Proof.
  intros Hkey Hx Hversion.
  assert (String.eqb key "id" = false) as Hid by by apply String.eqb_neq.
  destruct (encrypt_field_returns (encryption_key (api self)) x
              (encryption_version (api self)) w) as (d & w1 & Henc).
  { destruct Hversion as [-> | [-> _]]; tauto. }
  pose proof (roundtrip_supported (encryption_key (api self)) x
                (encryption_version (api self)) w Hx Hversion) as Hround.
  unfold roundtrip in Hround. rewrite (bind_return _ _ _ _ _ Henc) in Hround.
  exists (EncryptedDataBagItem.Make (api self)
            (<[key := PDict (map_to_list d)]> (raw_data self))), w1.
  split.
  { unfold __setitem__. rewrite Hid. by rewrite (bind_return _ _ _ _ _ Henc). }
  cbn [raw_data api]. split.
  { unfold __getitem__, getitem. rewrite Hid. cbn [raw_data api].
    rewrite lookup_insert_eq.
    change (fst (decrypt_field (encryption_key (api self))
                               (list_to_map (map_to_list d)) w1) = Return x).
    by rewrite list_to_map_to_list. }
  split; [eexists; apply lookup_insert_eq|].
  split; [reflexivity|]. intros k Hk. by rewrite lookup_insert_ne.
Qed.

(** Reading a field that the item does not hold raises [KeyError] with
    the field name and makes no library call; an entry other than [id]
    that is not a dict raises [TypeError]. *)
Theorem getitem_of_missing_or_plain_entry
        `{Cipher, Json} (self : EncryptedDataBagItem.t) (key : string) (w : world) :
  (raw_data self !! key = None ->
   __getitem__ self key w = (Raise (KeyError (PStr key)), w))
  /\ (key <> "id" ->
      forall raw, raw_data self !! key = Some raw ->
                  (forall kvs, raw <> PDict kvs) ->
                  __getitem__ self key w = (Raise TypeError, w)).
Proof.
  split.
  - intros Hk. unfold __getitem__, getitem. rewrite Hk. by destruct (String.eqb key "id").
  - intros Hkey raw Hraw Hplain. unfold __getitem__, getitem.
    rewrite (proj2 (String.eqb_neq key "id") Hkey), Hraw.
    destruct raw; try reflexivity. by destruct (Hplain kvs).
Qed.

End ItemHooks.

(** ** The version lookup of [create_encryptor] *)

(** The encryptor is looked up in a dict keyed by the integers 1 and 2,
    so the lookup follows Python's equality and hashing: [True] selects
    version 1, [False], [None] and text are refused as unsupported, and an
    unhashable version (a list or a dict) raises [TypeError].  In every
    case both encryptors were built first. *)
Theorem create_encryptor_version_lookup
        `{Cipher} (key : string) (data : value) (w : world) :
  let w2 := after_init key (after_init key w) in
  let v1 := EncV1 (fresh_V1 key data w) in
  let v2 := EncV2 (EncryptorVersion2.Make (fresh_V1 key data (after_init key w)) None) in
  create_encryptor key data (PInt 1) w = (Return v1, w2)
  /\ create_encryptor key data (PInt 2) w = (Return v2, w2)
  /\ create_encryptor key data (PBool true) w = (Return v1, w2)
  /\ (forall version, version ∈ [PBool false; PNone; PInt 0; PInt 3] \/ (exists s, version = PStr s) ->
        create_encryptor key data version w
        = (Raise (ChefUnsupportedEncryptionVersionError version), w2))
  /\ (forall version, hashable version = false ->
        create_encryptor key data version w = (Raise TypeError, w2))
  /\ encryptor_iv v1 = drawn_iv w
  /\ encryptor_iv v2 = drawn_iv (after_init key w).
Proof.
  cbn zeta. do 3 (split; [by rewrite create_encryptor_run|]).
  split.
  { intros version [Hv | [s ->]]; [|by rewrite create_encryptor_run].
    rewrite !elem_of_cons, elem_of_nil in Hv.
    destruct Hv as [-> | [-> | [-> | [-> | []]]]]; by rewrite create_encryptor_run. }
  split; [|done].
  intros version Hh. by rewrite create_encryptor_run, Hh.
Qed.

(** * The envelope code on the model *)

(** ** The model cipher decrypts what it encrypted *)

Module ModelCipherFacts.
Import ModelCipher.

Lemma xor_byte_involutive (m x : byte) : xor_byte m (xor_byte m x) = x.
Proof.
  apply Byte.byte_dec_bl. revert m x.
  apply (forall_byte2 (fun m x => Byte.eqb (xor_byte m (xor_byte m x)) x)).
  vm_compute. reflexivity.
Qed.

Lemma pad_length_byte (n : nat) :
  (1 <= n <= 16)%nat -> N.to_nat (Byte.to_N (byte_of_N (N.of_nat n))) = n.
Proof.
  intros Hn. do 17 (destruct n as [|n]; [first [lia | reflexivity]|]). lia.
Qed.

Lemma pkcs7_unpad_pad (b : bytes) : pkcs7_unpad (pkcs7_pad b) = Some b.
Proof.
  unfold pkcs7_unpad, pkcs7_pad. cbv zeta.
  assert (1 <= 16 - length b mod 16 <= 16)%nat as Hn.
  { pose proof (Nat.mod_upper_bound (length b) 16). lia. }
  assert ((length b + (16 - length b mod 16)) mod 16 = 0)%nat as Hmod.
  { pose proof (Nat.mod_upper_bound (length b) 16).
    pose proof (Nat.div_mod_eq (length b) 16) as Hdiv.
    replace (length b + (16 - length b mod 16))%nat with (S (length b / 16) * 16)%nat by lia.
    apply Nat.Div0.mod_mul. }
  revert Hn Hmod. generalize (16 - length b mod 16)%nat as n. intros n Hn Hmod.
  assert (last (b ++ repeat (byte_of_N (N.of_nat n)) n) = Some (byte_of_N (N.of_nat n))) as ->.
  { destruct n as [|k]; [lia|]. cbn [repeat]. rewrite repeat_cons, app_assoc. apply last_snoc. }
  rewrite (pad_length_byte n Hn), length_app, repeat_length, Hmod.
  replace (length b + n - n)%nat with (length b) by lia.
  rewrite drop_app_length, take_app_length.
  assert (forallb (Byte.eqb (byte_of_N (N.of_nat n))) (repeat (byte_of_N (N.of_nat n)) n) = true)
    as ->.
  { apply forallb_forall. intros y Hy. apply repeat_spec in Hy. subst y. by apply Byte.byte_dec_lb. }
  destruct (Nat.ltb_spec 0 n); [|lia].
  destruct (Nat.leb_spec n 16); [|lia].
  destruct (Nat.leb_spec n (length b + n)); [|lia].
  reflexivity.
Qed.

Lemma decrypt_encrypt (key iv plaintext : bytes) :
  decrypt key iv (encrypt key iv plaintext) = Some plaintext.
Proof.
  unfold decrypt, encrypt. rewrite map_map.
  rewrite (map_ext _ id) by (intros x; apply xor_byte_involutive).
  rewrite map_id. apply pkcs7_unpad_pad.
Qed.

End ModelCipherFacts.

#[local] Existing Instance ModelCipher.instance.
#[local] Existing Instance ModelJson.instance.
#[local] Instance model_cipher_laws : CipherLaws := ModelCipherFacts.decrypt_encrypt.

(** ** A passphrase longer than one hash block, a value and its V2 envelope *)

Definition long_key : string :=
  "0123456789abcdef0123456789abcdef0123456789abcdef0123456789abcdef0".

Definition secret : value := PDict [("password", PStr "s3cret")].

Definition model_envelope : gmap string value :=
  match encrypt_field long_key secret (PInt 2) model_world with
  | (Return d, _) => d
  | _ => ∅
  end.

(** ** The claims at concrete inputs *)

Lemma C1_witness :
  json_representable secret
  /\ fst (roundtrip long_key secret (PInt 1) model_world) = Return secret
  /\ fst (roundtrip long_key secret (PInt 2) model_world) = Return secret.
Proof.
  assert (json_representable secret) as Hx by (split; vm_compute; reflexivity).
  destruct (C1_roundtrip_V2_needs_agreeing_tags long_key secret model_world Hx)
    as (H1 & H2 & _ & H4).
  split; [exact Hx|]. split; [exact H1|]. apply H2, H4. vm_compute. lia.
Defined.

(** With the passphrase [hunter2] the round trip at version 1 returns the
    value and the round trip at version 2 fails. *)
Lemma C1_short_passphrase_fails :
  json_representable secret
  /\ fst (roundtrip "hunter2" secret (PInt 1) model_world) = Return secret
  /\ fst (roundtrip "hunter2" secret (PInt 2) model_world)
     = Raise (ChefDecryptionError MSG_HMAC_FAILED).
Proof. repeat split; vm_compute; reflexivity. Qed.

Lemma C2_witness :
  exists w1,
    decrypt_field long_key (tamper "hmac" 0 0 model_envelope) model_world
    = (Raise (ChefDecryptionError MSG_HMAC_FAILED), w1).
Proof.
  eassert (Hthm : _).
  { eapply (C2_tag_covers_the_data_text_only long_key)
      with (data := tamper "hmac" 0 0 model_envelope) (w := model_world);
      vm_compute; reflexivity. }
  destruct Hthm as [Hdecoded _].
  edestruct Hdecoded as [Hbad _];
    [ reflexivity | reflexivity | reflexivity
    | split; vm_compute; reflexivity | split; vm_compute; reflexivity
    | split; vm_compute; reflexivity | vm_compute; reflexivity | ].
  destruct Hbad as (w1 & Hrun & _); [vm_compute; discriminate|].
  exists w1. exact Hrun.
Defined.

(** One bit of the [iv] text flipped: the envelope still decrypts to the
    value.  One bit of the [encrypted_data] text flipped: the decoder's
    error, not the HMAC error. *)
Lemma C2_flipped_iv_bit_goes_unnoticed :
  model_envelope !! "iv" = Some (PStr "MzM1ODdkYTJjN2VjMTEzNg==")
  /\ tamper "iv" 21 3 model_envelope !! "iv" = Some (PStr "MzM1ODdkYTJjN2VjMTEzNo==")
  /\ fst (decrypt_field long_key model_envelope model_world) = Return secret
  /\ fst (decrypt_field long_key (tamper "iv" 21 3 model_envelope) model_world) = Return secret
  /\ fst (decrypt_field long_key (tamper "encrypted_data" 0 2 model_envelope) model_world)
     = Raise BinasciiError.
Proof. repeat split; vm_compute; reflexivity. Qed.

Lemma C3_witness :
  create_encryptor long_key secret (PInt 3) model_world
  = (Raise (ChefUnsupportedEncryptionVersionError (PInt 3)),
     after_init long_key (after_init long_key model_world)).
Proof.
  exact (proj1 (C3_unsupported_version_after_construction
                  long_key secret (PInt 3) model_world eq_refl eq_refl eq_refl)).
Defined.

Definition is_digest (e : event) : bool :=
  match e with
  | EvDigest _ => true
  | _ => false
  end.

Definition is_urandom (e : event) : bool :=
  match e with
  | EvUrandom _ => true
  | _ => false
  end.

Definition is_cipher_new (e : event) : bool :=
  match e with
  | EvCipherNew _ _ => true
  | _ => false
  end.

(** Version 3 is refused after the passphrase was hashed, IVs were drawn
    and ciphers were built. *)
Lemma C3_version_3_builds_both_encryptors :
  fst (create_encryptor long_key secret (PInt 3) model_world)
  = Raise (ChefUnsupportedEncryptionVersionError (PInt 3))
  /\ trace model_world = []
  /\ map (fun e => (is_digest e, is_urandom e, is_cipher_new e))
         (trace (snd (create_encryptor long_key secret (PInt 3) model_world)))
     = [ (true, false, false); (false, true, false); (false, false, true);
         (true, false, false); (false, true, false); (false, false, true) ]
  /\ cursor (snd (create_encryptor long_key secret (PInt 3) model_world)) = 16%nat.
Proof. repeat split; vm_compute; reflexivity. Qed.

Lemma C4_witness :
  decrypt_field long_key (<["version" := PStr "1"]> model_envelope) model_world
  = (Raise AttributeError, model_world).
Proof.
  destruct (C4_text_version_builds_no_decryptor
              long_key (<["version" := PStr "1"]> model_envelope) "1" model_world)
    as (_ & _ & Hfield); [by left | apply lookup_insert_eq | apply Hfield].
Defined.

(** A decryptor whose stored tag is empty, as built from [hmac: ""]. *)
Definition empty_tag_decryptor : DecryptorVersion2.t :=
  DecryptorVersion2.Make (V1_decryptor long_key [] []) [] "".

Lemma C5_witness :
  DecryptorVersion2._validate_hmac empty_tag_decryptor model_world
  = (Raise TypeError, after_validation empty_tag_decryptor model_world).
Proof.
  refine (proj1 (C5_length_mismatch_raises_TypeError empty_tag_decryptor model_world _)).
  vm_compute. discriminate.
Defined.

Lemma C6_witness :
  DecryptorVersion2.decrypt empty_tag_decryptor model_world
  = (Raise TypeError, after_validation empty_tag_decryptor model_world).
Proof.
  refine (proj1 (C6_wrong_length_tag_raises_TypeError empty_tag_decryptor model_world _)).
  vm_compute. discriminate.
Defined.

Lemma C7_witness :
  delete "version" model_envelope !! "version" = None
  /\ create_decryptor long_key (delete "version" model_envelope)
     = create_V1 long_key (delete "version" model_envelope).
Proof.
  assert (delete "version" model_envelope !! "version" = None) as Hv by apply lookup_delete_eq.
  split; [exact Hv|].
  exact (proj1 (proj2 (C7_missing_version_defaults_to_V1
                         long_key (delete "version" model_envelope) Hv))).
Defined.

(** A V1 decryptor whose ciphertext decrypts to [text]. *)
Definition decryptor_of_text (text : string) : DecryptorVersion1.t :=
  V1_decryptor long_key
    (cipher_encrypt (SHA256.digest (encode_utf8 long_key)) [] (encode_utf8 text)) [].

Lemma C8_witness :
  DecryptorVersion1.decrypt (decryptor_of_text "not json") model_world
  = (Raise (ChefDecryptionError MSG_KEY_INCORRECT),
     after_decryption (decryptor_of_text "not json") model_world).
Proof.
  apply (proj1 (C8_parse_failure_is_the_generic_error
                  (decryptor_of_text "not json") model_world) (encode_utf8 "not json")).
  - vm_compute. reflexivity.
  - right. exists "not json". split; vm_compute; reflexivity.
Defined.

(** A ciphertext whose padding is wrong: the error of the cipher escapes.
    Decrypted JSON without the wrapper key, or that is not an object: the
    error of the subscript escapes. *)
Lemma C8_other_errors_escape :
  cipher_decrypt (SHA256.digest (encode_utf8 long_key)) [] [x00] = None
  /\ fst (DecryptorVersion1.decrypt (V1_decryptor long_key [x00] []) model_world)
     = Raise CipherError
  /\ fst (DecryptorVersion1.decrypt (decryptor_of_text "{}") model_world)
     = Raise (KeyError (PStr "json_wrapper"))
  /\ fst (DecryptorVersion1.decrypt (decryptor_of_text "[1]") model_world) = Raise TypeError.
Proof. repeat split; vm_compute; reflexivity. Qed.

Definition fresh_encryptor : encryptor :=
  EncV2 (EncryptorVersion2.Make (fresh_V1 long_key secret model_world) None).

Lemma C9_witness :
  encrypt_times 3 fresh_encryptor model_world
  = (Return (repeat (ciphertext fresh_encryptor) 3, settle fresh_encryptor),
     extended model_world (encrypt_events fresh_encryptor)).
Proof.
  assert (1 <= 3)%nat as Hn by lia.
  destruct (C9_encrypt_is_memoised fresh_encryptor model_world 3 Hn) as (_ & Htimes & _).
  exact Htimes.
Defined.

Lemma C10_witness :
  create_decryptor long_key (delete "hmac" model_envelope) model_world
  = (Raise (KeyError (PStr "hmac")), model_world).
Proof.
  assert (delete "hmac" model_envelope !! "version" = Some (PInt 2)) as Hv
    by (vm_compute; reflexivity).
  assert (delete "hmac" model_envelope !! "hmac" = None) as Hh by apply lookup_delete_eq.
  apply (proj2 (C10_missing_hmac_raises_KeyError
                  long_key (delete "hmac" model_envelope) model_world Hv Hh));
    eexists; vm_compute; reflexivity.
Defined.

(** The text "2" in the [version] field of an envelope that decrypts with
    the integer 2. *)
Lemma C4_text_version_fails :
  model_envelope !! "version" = Some (PInt 2)
  /\ fst (decrypt_field long_key model_envelope model_world) = Return secret
  /\ fst (decrypt_field long_key (<["version" := PStr "2"]> model_envelope) model_world)
     = Raise AttributeError.
Proof. repeat split; vm_compute; reflexivity. Qed.

(** A stored tag of three bytes, as decoded from [hmac: "AAAA"]. *)
Lemma C5_short_tag_raises_TypeError :
  fst (DecryptorVersion2._validate_hmac
         (DecryptorVersion2.Make (V1_decryptor long_key [] []) [x00; x00; x00] "")
         model_world)
  = Raise TypeError.
Proof. vm_compute. reflexivity. Qed.

(** The envelope with an empty [hmac] text. *)
Lemma C6_empty_tag_raises_TypeError :
  fst (decrypt_field long_key (<["hmac" := PStr ""]> model_envelope) model_world)
  = Raise TypeError.
Proof. vm_compute. reflexivity. Qed.

(** ** Further properties at concrete inputs *)

Lemma get_decryption_version_accepts_witness :
  get_decryption_version model_envelope model_world = (Return (PInt 2), model_world)
  /\ get_decryption_version (<["version" := PInt 3]> model_envelope) model_world
     = (Raise (ChefUnsupportedEncryptionVersionError (PInt 3)), model_world).
Proof.
  split.
  - apply (get_decryption_version_accepts model_envelope (PInt 2) model_world).
    + vm_compute. reflexivity.
    + unfold accepted_versions. rewrite !elem_of_cons. tauto.
  - apply (get_decryption_version_accepts
             (<["version" := PInt 3]> model_envelope) (PInt 3) model_world).
    + apply lookup_insert_eq.
    + unfold accepted_versions. rewrite !elem_of_cons, elem_of_nil.
      intros [Hv | [Hv | [Hv | [Hv | []]]]]; discriminate Hv.
Defined.

Lemma unsupported_version_is_refused_first_witness :
  decrypt_field long_key (<["version" := PStr "3"]> ∅) model_world
  = (Raise (ChefUnsupportedEncryptionVersionError (PStr "3")), model_world).
Proof.
  apply (unsupported_version_is_refused_first
           long_key (<["version" := PStr "3"]> ∅) (PStr "3") model_world).
  - apply lookup_insert_eq.
  - unfold accepted_versions. rewrite !elem_of_cons, elem_of_nil.
    intros [Hv | [Hv | [Hv | [Hv | []]]]]; discriminate Hv.
Defined.

Lemma create_decryptor_returns_None_only_for_text_witness :
  exists s, (s = "1" \/ s = "2")
            /\ <["version" := PStr "1"]> model_envelope !! "version" = Some (PStr s).
Proof.
  refine (proj2 (create_decryptor_returns_None_only_for_text
                   long_key (<["version" := PStr "1"]> model_envelope)
                   model_world model_world _)).
  vm_compute. reflexivity.
Defined.

Lemma decryption_reads_four_fields_witness :
  create_decryptor long_key model_envelope
  = create_decryptor long_key (delete "cipher" model_envelope).
Proof.
  refine (proj1 (decryption_reads_four_fields
                   long_key model_envelope (delete "cipher" model_envelope) _)).
  intros k Hk. rewrite lookup_delete_ne; [reflexivity|].
  intros <-. rewrite !elem_of_cons, elem_of_nil in Hk.
  destruct Hk as [Hk | [Hk | [Hk | [Hk | []]]]]; discriminate Hk.
Defined.

Lemma V1_missing_field_raises_KeyError_witness :
  create_decryptor long_key (<["iv" := PStr "AAAA"]> ∅) model_world
  = (Raise (KeyError (PStr "encrypted_data")), model_world).
Proof.
  refine (proj1 (V1_missing_field_raises_KeyError
                   long_key (<["iv" := PStr "AAAA"]> ∅) model_world _) _).
  - left. vm_compute. reflexivity.
  - vm_compute. reflexivity.
Defined.

(** A decryptor whose stored tag is the expected one. *)
Definition matching_tag_decryptor : DecryptorVersion2.t :=
  DecryptorVersion2.Make (V1_decryptor long_key [] []) (expected_tag long_key "AAAA") "AAAA".

Lemma validate_hmac_accepts_exactly_the_expected_tag_witness :
  DecryptorVersion2._validate_hmac matching_tag_decryptor model_world
  = (Return true, after_validation matching_tag_decryptor model_world).
Proof.
  refine (proj1 (validate_hmac_accepts_exactly_the_expected_tag
                   matching_tag_decryptor model_world _) _).
  - vm_compute. reflexivity.
  - vm_compute. reflexivity.
Defined.

(** The V2 envelope made with the passphrase [hunter2]. *)
Definition short_key_envelope : gmap string value :=
  match encrypt_field "hunter2" secret (PInt 2) model_world with
  | (Return d, _) => d
  | _ => ∅
  end.

Lemma V2_envelope_decrypts_as_V1_witness :
  fst (decrypt_field "hunter2" short_key_envelope model_world)
  = Raise (ChefDecryptionError MSG_HMAC_FAILED)
  /\ fst (decrypt_field "hunter2" (delete "version" short_key_envelope) model_world)
     = Return secret.
Proof.
  split; [vm_compute; reflexivity|].
  eassert (Hthm : _).
  { eapply (V2_envelope_decrypts_as_V1 "hunter2" secret model_world _ model_world
              short_key_envelope).
    - split; vm_compute; reflexivity.
    - vm_compute. reflexivity. }
  destruct Hthm as [_ Hd]. apply (Hd (delete "version" short_key_envelope)). by left.
Defined.

Lemma undecodable_data_fails_in_constructor_witness :
  decrypt_field long_key (tamper "encrypted_data" 0 2 model_envelope) model_world
  = (Raise BinasciiError, logged (EvDigest (encode_utf8 long_key)) model_world).
Proof.
  eapply (undecodable_data_fails_in_constructor
            long_key (tamper "encrypted_data" 0 2 model_envelope)).
  - right. right. split; [vm_compute; reflexivity | eexists; vm_compute; reflexivity].
  - vm_compute. reflexivity.
  - vm_compute. reflexivity.
  - vm_compute. reflexivity.
Defined.

(** An item without entries, encrypting at version 2 under the long
    passphrase. *)
Definition empty_item : EncryptedDataBagItem.t :=
  EncryptedDataBagItem.Make (EncryptedDataBagItem.Build_ChefAPI long_key (PInt 2)) ∅.

Lemma setitem_then_getitem_witness :
  exists self' w1,
    EncryptedDataBagItem.__setitem__ empty_item "password" secret model_world
    = (Return self', w1)
    /\ fst (EncryptedDataBagItem.__getitem__ self' "password" w1) = Return secret.
Proof.
  destruct (setitem_then_getitem empty_item "password" secret model_world)
    as (self' & w1 & Hset & Hget & _).
  - discriminate.
  - split; vm_compute; reflexivity.
  - right. split; [reflexivity | vm_compute; lia].
  - exists self', w1. split; [exact Hset | exact Hget].
Defined.

Lemma getitem_of_missing_or_plain_entry_witness :
  EncryptedDataBagItem.__getitem__ empty_item "password" model_world
  = (Raise (KeyError (PStr "password")), model_world).
Proof.
  apply (proj1 (getitem_of_missing_or_plain_entry empty_item "password" model_world)).
  reflexivity.
Defined.
